(** * RedditDownloader, [src/engine/util/http.ts]

    A shallow embedding of the media classifier [getMediaMimeExtension] and
    of the streaming download [downloadMedia], with the properties of both.

    Conventions.
    - A header value is a [string] of 8-bit characters: Node decodes header
      bytes as Latin-1, so every character code lies in 0..255.
    - [headers['content-type']] is [option string]; [None] is [undefined].
    - A result of type [string | false] is [option string]; [None] is [false].
    - Byte counts ([chunk.length], [downloaded]) are integers; JavaScript
      numbers hold them exactly below 2^53.
    - The run-time system (Node's streams, axios) is not part of the file:
      what it answers to the calls of [downloadMedia] and what it delivers
      to its listeners are inputs, and the properties hold for all of them.
      One answer the listeners provoke themselves, the error of a write
      after [writer.close()]: [heard] puts it where Node emits it. *)

From Stdlib Require Import ZArith NArith Bool List Ascii String Lia.
From Stdlib Require Import Floats.SpecFloat.
Import ListNotations.

Set Implicit Arguments.

Local Open Scope string_scope.

(* ------------------------------------------------------------------ *)
(** ** JavaScript strings *)

(** The characters [String.prototype.trim] strips (and the regular
    expression class [\s] matches), among the codes 0..255: TAB, LF, VT, FF,
    CR, SPACE and NO-BREAK SPACE. *)
Definition isWhiteSpace (c : ascii) : bool :=
  let n := N_of_ascii c in
  ((9 <=? n) && (n <=? 13) || (n =? 32) || (n =? 160))%N.

Fixpoint trimStart (s : string) : string :=
  match s with
  | String c s' => if isWhiteSpace c then trimStart s' else s
  | EmptyString => EmptyString
  end.

(** A character is dropped when it is white space and nothing but white
    space follows it. *)
Fixpoint trimEnd (s : string) : string :=
  match s with
  | String c s' =>
      match trimEnd s' with
      | EmptyString => if isWhiteSpace c then EmptyString else String c EmptyString
      | r => String c r
      end
  | EmptyString => EmptyString
  end.

Definition trim (s : string) : string := trimEnd (trimStart s).

(** [String.prototype.toLowerCase] on the codes 0..255: A-Z and the Latin-1
    capitals 0xC0-0xDE (the multiplication sign 0xD7 apart) move up by 32. *)
Definition toLowerCaseChar (c : ascii) : ascii :=
  let n := N_of_ascii c in
  if ((65 <=? n) && (n <=? 90) || (192 <=? n) && (n <=? 222) && negb (n =? 215))%N
  then ascii_of_N (n + 32)
  else c.

Fixpoint toLowerCase (s : string) : string :=
  match s with
  | String c s' => String (toLowerCaseChar c) (toLowerCase s')
  | EmptyString => EmptyString
  end.

(** [s.startsWith(t)]. *)
Definition startsWith (s t : string) : bool := String.prefix t s.

(** Truthiness of a [string | false] value: [false] and [''] are falsy. *)
Definition truthy (v : option string) : bool :=
  match v with
  | Some s => negb (s =? "")
  | None => false
  end.

(* ------------------------------------------------------------------ *)
(** ** The media classifier *)

(** [const allowedTypes = ['image/', 'audio/', 'video/']] *)
Definition allowedTypes : list string := ["image/"; "audio/"; "video/"].

(** [allowedTypes.some(t => type.trim().toLowerCase().startsWith(t))] *)
Definition allowedPrefix (type : string) : bool :=
  existsb (fun t => startsWith (toLowerCase (trim type)) t) allowedTypes.

Section Classifier.

(** [mime.extension] of the package [mime-types]: the default extension
    of a content type, or [false]. The package is a dependency, not part
    of the source tree, and is a parameter here. *)
Variable mime_extension : string -> option string.

(** [[
    export function getMediaMimeExtension(type: string) {
      if (!type || !allowedTypes.some(t => type.trim().toLowerCase().startsWith(t))) return false;
      const ext = mime.extension(type);
      return ext === 'jpeg' ? 'jpg' : ext;
    }
    ]] *)
Definition getMediaMimeExtension (type : option string) : option string :=
  match type with
  | None => None
  | Some ty =>
      if (ty =? "") || negb (allowedPrefix ty) then None
      else
        match mime_extension ty with
        | Some ext => Some (if ext =? "jpeg" then "jpg" else ext)
        | None => None
        end
  end.

End Classifier.

(* ------------------------------------------------------------------ *)
(** ** JavaScript numbers: [parseFloat((downloaded/totalLength).toFixed(2))] *)

(** The values the expression can take. [Hundredths n] is the number whose
    two-decimal text [toFixed(2)] printed, n/100, read back by [parseFloat];
    reading back is monotone, so comparing two such numbers compares their
    [n]. A division by zero gives [Infinity], or [NaN] for 0/0. *)
Inductive number : Type :=
| Hundredths (n : Z)
| Infinity
| NaN.

(** IEEE 754 binary64, as the Standard Library specifies it. *)
Definition binary64 (z : Z) : spec_float := binary_normalize 53 1024 z 0 false.

Definition divide (a b : Z) : spec_float := SFdiv 53 1024 (binary64 a) (binary64 b).

(** [le_binary64 p q x]: the rational p/q (q > 0) is at most the double x. *)
Definition le_binary64 (p q : Z) (x : spec_float) : bool :=
  match x with
  | S754_zero _ => (p <=? 0)%Z
  | S754_finite s m e =>
      let m' := if s then Zneg m else Zpos m in
      if (0 <=? e)%Z then (p <=? q * m' * 2 ^ e)%Z
      else (p * 2 ^ (- e) <=? q * m')%Z
  | S754_infinity s => negb s
  | S754_nan => false
  end.

(** When a quotient is exactly the midpoint (2k+1)/200 of two hundredths,
    [toFixed(2)] goes by the double the division produced, which is the
    double nearest to that midpoint: up (to k+1) when the double is at or
    above the midpoint, down when it is below ((0.015).toFixed(2) is "0.01",
    (0.025).toFixed(2) is "0.03"). *)
Definition midpointRoundsUp (k : Z) : bool :=
  le_binary64 (2 * k + 1) 200 (divide (2 * k + 1) 200).

Section Rounding.

(** The direction taken at a midpoint is a parameter of the rounding, so
    that its properties are seen not to depend on it. *)
Variable up : Z -> bool.

(** The integer nearest to 100 * a / b, for b > 0. *)
Definition nearestHundredth (a b : Z) : Z :=
  let n := (100 * a / b)%Z in
  match (2 * ((100 * a) mod b) ?= b)%Z with
  | Lt => n
  | Gt => (n + 1)%Z
  | Eq => if up n then (n + 1)%Z else n
  end.

End Rounding.

(** [(a / b).toFixed(2)], in hundredths, for byte counts a >= 0 and b > 0:
    the quotient of the two doubles is the double nearest to a/b, which below
    2^53 / 200 bytes lies on the same side of every midpoint as a/b itself,
    unless a/b is a midpoint. *)
Definition toFixed2 (a b : Z) : Z := nearestHundredth midpointRoundsUp a b.

(** The same text computed on the double itself: for x >= 0 the n nearest to
    100 * x, the larger one when two are as near; a negative x is printed as
    the opposite of its absolute value (ECMAScript, Number.prototype.toFixed). *)
Definition toFixed2_magnitude (m : positive) (e : Z) : Z :=
  if (0 <=? e)%Z then (100 * Zpos m * 2 ^ e)%Z
  else ((200 * Zpos m + 2 ^ (- e)) / (2 * 2 ^ (- e)))%Z.

Definition toFixed2_binary64 (x : spec_float) : number :=
  match x with
  | S754_zero _ => Hundredths 0
  | S754_finite s m e =>
      Hundredths (if s then - toFixed2_magnitude m e else toFixed2_magnitude m e)
  | S754_infinity false => Infinity
  | _ => NaN
  end.

(** [parseFloat((downloaded / totalLength).toFixed(2))] *)
Definition fraction (downloaded totalLength : Z) : number :=
  if (totalLength =? 0)%Z
  then (if (downloaded =? 0)%Z then NaN else Infinity)
  else Hundredths (toFixed2 downloaded totalLength).

Arguments fraction downloaded totalLength : simpl never.
Arguments toFixed2 a b : simpl never.

Definition number_eqb (x y : number) : bool :=
  match x, y with
  | Hundredths a, Hundredths b => (a =? b)%Z
  | Infinity, Infinity => true
  | NaN, NaN => true
  | _, _ => false
  end.

(** [x <= y] on numbers; false when either is [NaN]. *)
Definition number_leb (x y : number) : bool :=
  match x, y with
  | Hundredths a, Hundredths b => (a <=? b)%Z
  | Hundredths _, Infinity => true
  | Infinity, Infinity => true
  | _, _ => false
  end.

(* ------------------------------------------------------------------ *)
(** ** The streaming download *)

(** [DownloadProgress] (declared in [../core/state]), by the three fields
    this file uses. *)
Record DownloadProgress : Type := mkProgress {
  shouldStop : bool;
  knowsPercent : bool;
  percent : number
}.

(** The response headers [downloadMedia] reads. Node's HTTP parser refuses a
    Content-Length that is not a sequence of digits, so the header, when
    present, is the decimal text of a natural number. It is a non-empty
    string, hence truthy, also when the number is 0. *)
Record Headers : Type := mkHeaders {
  content_type : option string;
  content_length : option N
}.

(** A chunk of the response body: a [Buffer]. *)
Definition Chunk : Type := list Byte.byte.

(** The files on disk, by path. *)
Definition Disk : Type := string -> option (list Byte.byte).

Definition store (d : Disk) (path : string) (content : list Byte.byte) : Disk :=
  fun p => if p =? path then Some content else d p.

(** What the file at [path] holds; nothing when there is no such file. *)
Definition contents (d : Disk) (path : string) : list Byte.byte :=
  match d path with
  | Some b => b
  | None => []
  end.

Section Download.

(** The error values the collaborators raise: what [axios] and [mkParents]
    reject with, and what the streams emit with an ['error'] event. *)
Variable E : Type.

Variable mime_extension : string -> option string.

(** What the promise returned by [downloadMedia] rejects with. *)
Inductive Reason : Type :=
| Error (message : string)
| GracefulStopError (message : string)
| Raised (cause : E).

Inductive Settled : Type :=
| Resolved (ext : string)
| Rejected (reason : Reason).

(** The calls made on the collaborators, the latest first. *)
Inductive Call : Type :=
| MkParents (path : string)
| CreateWriteStream (path : string)
| ConsoleDebug (message url : string)
| WriterClose
| Cancel.

(** What happens once the listeners are registered, in the order in which
    it happens.
    - [StopRequested]: the owner of [prog] sets [prog.shouldStop = true]
      (the flag is a request to stop: it is raised, and not lowered while
      the call lasts);
    - [Data chunk]: the response stream emits ['data'];
    - [ResponseError e]: the response stream emits ['error'] (the
      connection failed while the body was in transit);
    - [WriterError e]: the writer emits ['error'];
    - [WriterClosed]: the writer emits ['close']. *)
Inductive Event : Type :=
| StopRequested
| Data (chunk : Chunk)
| ResponseError (e : E)
| WriterError (e : E)
| WriterClosed.

(** The state one invocation works on: the caller's [prog], the local
    [downloaded], the writer (ended once [end()] has run, which
    [close()] calls, or once it has closed), the disk, the calls made so
    far and the returned promise ([None] while it is pending). *)
Record State : Type := mkState {
  prog : DownloadProgress;
  downloaded : Z;
  writerEnded : bool;
  disk : Disk;
  calls : list Call;
  promise : option Settled
}.

Definition call (c : Call) (s : State) : State :=
  mkState (prog s) (downloaded s) (writerEnded s) (disk s) (c :: calls s) (promise s).

Definition endWriter (s : State) : State :=
  mkState (prog s) (downloaded s) true (disk s) (calls s) (promise s).

(** [resolve] and [reject] settle a pending promise and do nothing to a
    settled one. *)
Definition settle (v : Settled) (s : State) : State :=
  match promise s with
  | None => mkState (prog s) (downloaded s) (writerEnded s) (disk s) (calls s) (Some v)
  | Some _ => s
  end.

Definition resolve (ext : string) : State -> State := settle (Resolved ext).
Definition reject (r : Reason) : State -> State := settle (Rejected r).

(** The variables the listeners close over. *)
Record Closure : Type := mkClosure {
  url : string;
  ext : string;
  totalLength : option N;
  dest : string
}.

Section Listeners.

Variable cl : Closure.

(** [[
    data.on('data', (chunk: any) => {
        if (prog.shouldStop) {
            console.debug('cancel direct dl', url);
            writer.close();
            return cancel();
        }
        if (totalLength) {
            downloaded += chunk.length;
            prog.knowsPercent = true;
            prog.percent = parseFloat((downloaded/totalLength).toFixed(2));
        } else {
            prog.knowsPercent = false;
        }
    })
    ]] *)
Definition onData (chunk : Chunk) (s : State) : State :=
  if shouldStop (prog s) then
    call Cancel (endWriter (call WriterClose (call (ConsoleDebug "cancel direct dl" (url cl)) s)))
  else
    match totalLength cl with
    | Some total =>
        let downloaded' := (downloaded s + Z.of_nat (List.length chunk))%Z in
        mkState (mkProgress (shouldStop (prog s)) true (fraction downloaded' (Z.of_N total)))
                downloaded' (writerEnded s) (disk s) (calls s) (promise s)
    | None =>
        mkState (mkProgress (shouldStop (prog s)) false (percent (prog s)))
                (downloaded s) (writerEnded s) (disk s) (calls s) (promise s)
    end.

(** [data.pipe(writer)]: the listener [pipe] adds after [onData] hands
    the chunk to [writer.write], and a writer that has ended writes
    nothing more. What the writer of Node answers to such a write is an
    event of the writer, and like every event an input of [step]; [heard]
    below says when it comes. *)
Definition pipe (chunk : Chunk) (s : State) : State :=
  if writerEnded s then s
  else
    mkState (prog s) (downloaded s) (writerEnded s)
            (store (disk s) (dest cl) (contents (disk s) (dest cl) ++ chunk)%list)
            (calls s) (promise s).

(** [[
    writer.on('close', () => {
        if (prog.shouldStop) return reject(new GracefulStopError('Interrupted http download.'))
        resolve(ext as string)
    })
    writer.on('error', err => reject(err))
    ]] *)
Definition onClose (s : State) : State :=
  if shouldStop (prog s) then reject (GracefulStopError "Interrupted http download.") s
  else resolve (ext cl) s.

Definition onError (err : E) (s : State) : State := reject (Raised err) s.

(** One event: the listeners registered for it run in the order of their
    registration. No listener is registered for an ['error'] of the
    response stream. *)
Definition step (s : State) (ev : Event) : State :=
  match ev with
  | StopRequested =>
      mkState (mkProgress true (knowsPercent (prog s)) (percent (prog s)))
              (downloaded s) (writerEnded s) (disk s) (calls s) (promise s)
  | Data chunk => pipe chunk (onData chunk s)
  | ResponseError _ => s
  | WriterError err => onError err s
  | WriterClosed => onClose (endWriter s)
  end.

Definition run (s : State) (events : list Event) : State := fold_left step events s.

End Listeners.

(** The state at the call: nothing downloaded, no writer, no call made, the
    promise pending. *)
Definition enter (prog0 : DownloadProgress) (disk0 : Disk) : State :=
  mkState prog0 0 false disk0 [] None.

(** [fs.createWriteStream(path)], with the default flags ['w']: the file
    is created, or truncated when it exists. *)
Definition createWriteStream (path : string) (s : State) : State :=
  call (CreateWriteStream path)
       (mkState (prog s) (downloaded s) false (store (disk s) path []) (calls s) (promise s)).

(** [downloadMedia(url, filePath, prog)], given what the collaborators
    answer: [response] is what [await axios(...)] gives ([inl e] when it
    rejects with e), [mkParents path] is [Some e] when [await
    mkParents(path)] rejects with e, and [events] is what is delivered
    after the listeners are registered. The result is the state when the
    last event has been handled. [[
      const { data, headers } = await axios({ ... });
      const ext = getMediaMimeExtension(headers['content-type'])
      if (!ext) throw Error('Attempted to download non-media mimetype.');
      await mkParents(filePath);
      const totalLength = headers['content-length']
      const writer = fs.createWriteStream(filePath + '.' + ext);
      let downloaded = 0;
      data.on('data', ...)
      data.pipe(writer);
      return new Promise((resolve, reject) => { writer.on('close', ...); writer.on('error', ...) })
    ]] *)
Definition downloadMedia
    (response : E + Headers) (mkParents : string -> option E) (disk0 : Disk)
    (url filePath : string) (prog0 : DownloadProgress) (events : list Event) : State :=
  let s0 := enter prog0 disk0 in
  match response with
  | inl e => reject (Raised e) s0
  | inr headers =>
      let ext := getMediaMimeExtension mime_extension (content_type headers) in
      match ext with
      | Some ext' =>
          if ext' =? "" then reject (Error "Attempted to download non-media mimetype.") s0
          else
            match mkParents filePath with
            | Some e => reject (Raised e) (call (MkParents filePath) s0)
            | None =>
                let totalLength := content_length headers in
                let path := filePath ++ "." ++ ext' in
                let s1 := createWriteStream path (call (MkParents filePath) s0) in
                run (mkClosure url ext' totalLength path) s1 events
            end
      | None => reject (Error "Attempted to download non-media mimetype.") s0
      end
  end.

End Download.

Arguments StopRequested {E}.
Arguments Data {E} chunk.
Arguments ResponseError {E} e.
Arguments WriterError {E} e.
Arguments WriterClosed {E}.
Arguments Error {E} message.
Arguments GracefulStopError {E} message.
Arguments Raised {E} cause.
Arguments Resolved {E} ext.
Arguments Rejected {E} reason.
Arguments enter {E} prog0 disk0.

(* ------------------------------------------------------------------ *)
(** ** Reading a sequence of events *)

Section Traces.

Variable E : Type.

(** The number of bytes the response stream delivered. *)
Fixpoint bytes (events : list (Event E)) : Z :=
  match events with
  | Data chunk :: rest => (Z.of_nat (List.length chunk) + bytes rest)%Z
  | _ :: rest => bytes rest
  | [] => 0%Z
  end.

(** The chunks delivered until the writer closed, joined. *)
Fixpoint body (events : list (Event E)) : list Byte.byte :=
  match events with
  | WriterClosed :: _ => []
  | Data chunk :: rest => (chunk ++ body rest)%list
  | _ :: rest => body rest
  | [] => []
  end.

(** No event of the writer among [events]. *)
Definition writerSilent (events : list (Event E)) : bool :=
  forallb (fun ev => match ev with
                     | WriterError _ | WriterClosed => false
                     | _ => true
                     end) events.

End Traces.

(** [prog.percent] is the rounded quotient of [downloaded] by [total]. *)
Definition synced (E : Type) (total : N) (s : State E) : Prop :=
  percent (prog s) = fraction (downloaded s) (Z.of_N total).

(** [ext] starts with a dot. *)
Definition leadingDot (ext : string) : bool := startsWith ext ".".

(* ------------------------------------------------------------------ *)
(** ** A lookup in the manner of the package mime-types *)

Module MimeTypes.

(** The longest prefix without [;] and without white space. *)
Fixpoint token (s : string) : string :=
  match s with
  | String c s' =>
      if isWhiteSpace c || (c =? ";")%char then EmptyString else String c (token s')
  | EmptyString => EmptyString
  end.

(** The type the package extracts from a header value: what follows the
    leading white space, up to the first [;] or white space. *)
Definition extractType (s : string) : string := token (trimStart s).

(** Modelled from the spec: the lookup in "a standard MIME-to-extension
    table" (section 4.1), which the source imports from the package
    mime-types and does not contain. [db] gives the extensions listed for a
    lowercase type; the first one is the default, and a type without a
    listed extension gives [false]. *)
Definition extension (db : string -> list string) (type : string) : option string :=
  if type =? "" then None
  else hd_error (db (toLowerCase (extractType type))).

(** Modelled from the spec: the entries of "a standard MIME-to-extension
    table" for the types the spec names and a few more, as the table the
    package reads (mime-db) lists them. For [image/jpeg] the default is
    [jpeg], which the classifier normalizes to [jpg]. For [audio/mpeg]
    section 8 has [mp3] "or the table's canonical mapping": the table
    lists [mp3] fourth, and the default is [mpga]. *)
Definition table (type : string) : list string :=
  if type =? "image/jpeg" then ["jpeg"; "jpg"; "jpe"]
  else if type =? "image/png" then ["png"]
  else if type =? "audio/mpeg" then ["mpga"; "mp2"; "mp2a"; "mp3"; "m2a"; "m3a"]
  else if type =? "video/mp4" then ["mp4"; "mp4v"; "mpg4"]
  else if type =? "text/html" then ["html"; "htm"; "shtml"]
  else [].

End MimeTypes.

(* ------------------------------------------------------------------ *)
(** ** Collaborators and inputs for concrete runs *)

Module Sample.

Import Byte.

(** The lookup of the runs: the table above, read as the package reads it. *)
Definition mime_extension : string -> option string :=
  MimeTypes.extension MimeTypes.table.

(** A response of type [image/png], with the declared length [total]. In
    the runs an error value is a string, its code. *)
Definition media (total : option N) : string + Headers :=
  inr (mkHeaders (Some "image/png") total).

Definition html : string + Headers :=
  inr (mkHeaders (Some "text/html") (Some 4%N)).

(** [mkParents] resolves. *)
Definition prepared : string -> option string := fun _ => None.

(** A disk on which the destination already exists. *)
Definition stale : Disk := store (fun _ => None) "out/pic.png" [x6f; x6c; x64].

Definition fresh : DownloadProgress := mkProgress false false (Hundredths 0).

Definition ab : Chunk := [x61; x62].
Definition cd : Chunk := [x63; x64].
Definition abcdefgh : Chunk := [x61; x62; x63; x64; x65; x66; x67; x68].

Definition download (response : string + Headers) (events : list (Event string))
  : State string :=
  downloadMedia mime_extension response prepared stale "http://host/pic" "out/pic"
                fresh events.

(** The quotients on which [toFixed2] is compared with the computation on
    doubles: a / b for 0 <= a < 260 and 0 < b < 130. *)
Definition grid : list (Z * Z) :=
  flat_map (fun b => map (fun a => (Z.of_nat a, Z.of_nat (S b))) (seq 0 260)) (seq 0 129).

End Sample.

(* ------------------------------------------------------------------ *)
(** ** The outcome and the file of a download, read off the events *)

Section Verdicts.

Variable E : Type.

(** What a call of [downloadMedia] that has registered its listeners comes
    to: the first event of the writer decides. [stopped] is
    [prog.shouldStop] so far. *)
Fixpoint verdict (stopped : bool) (ext : string) (events : list (Event E))
  : option (Settled E) :=
  match events with
  | StopRequested :: rest => verdict true ext rest
  | WriterError e :: _ => Some (Rejected (Raised e))
  | WriterClosed :: _ =>
      Some (if stopped then Rejected (GracefulStopError "Interrupted http download.")
            else Resolved ext)
  | _ :: rest => verdict stopped ext rest
  | [] => None
  end.

(** The chunks delivered before a stop was requested, joined. *)
Fixpoint written (stopped : bool) (events : list (Event E)) : list Byte.byte :=
  match events with
  | StopRequested :: _ => []
  | Data chunk :: rest => if stopped then [] else (chunk ++ written stopped rest)%list
  | _ :: rest => written stopped rest
  | [] => []
  end.

(** The number of chunks delivered after a stop was requested. *)
Fixpoint stoppedChunks (stopped : bool) (events : list (Event E)) : nat :=
  match events with
  | StopRequested :: rest => stoppedChunks true rest
  | Data _ :: rest => (if stopped then 1 else 0) + stoppedChunks stopped rest
  | _ :: rest => stoppedChunks stopped rest
  | [] => 0
  end.

Definition isStopRequested (ev : Event E) : bool :=
  match ev with StopRequested => true | _ => false end.

Definition isData (ev : Event E) : bool :=
  match ev with Data _ => true | _ => false end.

End Verdicts.

(* ------------------------------------------------------------------ *)
(** ** The writer's answer to a write after [writer.close()] *)

Section WriteAfterEnd.

Variable E : Type.

(** The error of Node that has the code [ERR_STREAM_WRITE_AFTER_END]. *)
Variable ERR_STREAM_WRITE_AFTER_END : E.

(** The events the listeners hear when the runtime delivers [events] and
    the writer is the [fs.WriteStream] of Node. The listener of line 78 is
    registered before the one [data.pipe(writer)] adds on line 92: when a
    chunk finds [prog.shouldStop] set, [writer.close()] has ended the
    writer by the time the pipe hands it that same chunk, and the writer
    answers a write after its end with an ['error'], emitted before any
    other event. An event of the writer detaches the pipe: from the first
    one on, the events heard are the events delivered. [stopped] is
    [prog.shouldStop] so far. *)
Fixpoint heard (stopped : bool) (events : list (Event E)) : list (Event E) :=
  match events with
  | StopRequested :: rest => StopRequested :: heard true rest
  | Data chunk :: rest =>
      if stopped then Data chunk :: WriterError ERR_STREAM_WRITE_AFTER_END :: rest
      else Data chunk :: heard stopped rest
  | ResponseError e :: rest => ResponseError e :: heard stopped rest
  | WriterError _ :: _ | WriterClosed :: _ => events
  | [] => []
  end.

End WriteAfterEnd.

Definition isCancel (c : Call) : bool :=
  match c with Cancel => true | _ => false end.

Definition isWriterClose (c : Call) : bool :=
  match c with WriterClose => true | _ => false end.

Definition isCreateWriteStream (c : Call) : bool :=
  match c with CreateWriteStream _ => true | _ => false end.

(** The number of calls in [l] that [f] selects. *)
Definition countCalls (f : Call -> bool) (l : list Call) : nat :=
  List.length (filter f l).

(** All the characters of [s] are white space. *)
Definition blank (s : string) : bool :=
  forallb isWhiteSpace (list_ascii_of_string s).

(* ------------------------------------------------------------------ *)
(** ** [downloadBinary] *)

Section Binary.

Variable E : Type.

(** What the promise returned by [downloadBinary] comes to. The listener
    of ['close'] is [resolve] itself and the event carries no argument, so
    the promise resolves with [undefined]; a rejection carries what the
    collaborator raised. *)
Inductive Completion : Type :=
| Fulfilled
| Failed (cause : E).

(** The state one invocation works on: the writer (ended once it has
    closed), the disk, the calls made so far and the returned promise. *)
Record BinaryState : Type := mkBinaryState {
  binaryEnded : bool;
  binaryDisk : Disk;
  binaryCalls : list Call;
  binaryPromise : option Completion
}.

Definition complete (v : Completion) (s : BinaryState) : BinaryState :=
  match binaryPromise s with
  | None => mkBinaryState (binaryEnded s) (binaryDisk s) (binaryCalls s) (Some v)
  | Some _ => s
  end.

(** One event for the listeners of [downloadBinary]: [[
      response.data.pipe(writer);
      return new Promise((resolve, reject) => {
          writer.on('close', resolve)
          writer.on('error', reject)
      })
    ]] There is no progress object and no stop flag: a [StopRequested] is
    nothing to this call, and neither is an ['error'] of the response
    stream. *)
Definition binaryStep (filePath : string) (s : BinaryState) (ev : Event E) : BinaryState :=
  match ev with
  | Data chunk =>
      if binaryEnded s then s
      else mkBinaryState (binaryEnded s)
                         (store (binaryDisk s) filePath
                                (contents (binaryDisk s) filePath ++ chunk)%list)
                         (binaryCalls s) (binaryPromise s)
  | WriterError err => complete (Failed err) s
  | WriterClosed =>
      complete Fulfilled (mkBinaryState true (binaryDisk s) (binaryCalls s) (binaryPromise s))
  | StopRequested => s
  | ResponseError _ => s
  end.

Definition binaryRun (filePath : string) (s : BinaryState) (events : list (Event E))
  : BinaryState :=
  fold_left (binaryStep filePath) events s.

(** [downloadBinary(url, filePath)], given what the collaborators answer,
    as for [downloadMedia]: [[
      const response = await axios({ url, method: 'GET', responseType: 'stream', timeout: 10000 });
      await mkParents(filePath);
      const writer = fs.createWriteStream(filePath);
      response.data.pipe(writer);
      return new Promise(...)
    ]] *)
Definition downloadBinary
    (response : E + Headers) (mkParents : string -> option E) (disk0 : Disk)
    (filePath : string) (events : list (Event E)) : BinaryState :=
  match response with
  | inl e => mkBinaryState false disk0 [] (Some (Failed e))
  | inr _ =>
      match mkParents filePath with
      | Some e => mkBinaryState false disk0 [MkParents filePath] (Some (Failed e))
      | None =>
          binaryRun filePath
                    (mkBinaryState false (store disk0 filePath [])
                                   [CreateWriteStream filePath; MkParents filePath] None)
                    events
      end
  end.

(** What a call of [downloadBinary] that has registered its listeners
    comes to: the first event of the writer decides. *)
Fixpoint binaryVerdict (events : list (Event E)) : option Completion :=
  match events with
  | WriterError e :: _ => Some (Failed e)
  | WriterClosed :: _ => Some Fulfilled
  | _ :: rest => binaryVerdict rest
  | [] => None
  end.

(** The outcome of [downloadMedia] that answers to one of [downloadBinary]. *)
Definition asSettled (ext : string) (c : Completion) : Settled E :=
  match c with
  | Fulfilled => Resolved ext
  | Failed e => Rejected (Raised e)
  end.

End Binary.

Arguments Fulfilled {E}.
Arguments Failed {E} cause.

(* ------------------------------------------------------------------ *)
(** ** [getMimeType] *)

Section GetMimeType.

(** [E]: what [axios] rejects with; [U]: the value of
    [res.request.res.responseUrl]. *)
Variables E U : Type.

Variable mime_extension : string -> option string.

(** The object [getMimeType] resolves with; [None] is [null]. *)
Record MimeInfo : Type := mkMimeInfo {
  mimeUrl : U;
  mimeExt : option string
}.

(** [v || null], for [v] of type [string | false]. *)
Definition orNull (v : option string) : option string :=
  if truthy v then v else None.

(** [[
    export async function getMimeType(url: string) {
        return axios({ url, method: 'HEAD', timeout: 10000 }).then( res => {
            return {
                url: res.request.res.responseUrl,
                ext: getMediaMimeExtension(res.headers['content-type']) || null
            }
        });
    }
    ]] [response] is what the request gives: [inl e] when it rejects with e,
    else the final URL and the headers. *)
Definition getMimeType (response : E + U * Headers) : E + MimeInfo :=
  match response with
  | inl e => inl e
  | inr (responseUrl, headers) =>
      inr (mkMimeInfo responseUrl
                      (orNull (getMediaMimeExtension mime_extension (content_type headers))))
  end.

End GetMimeType.

(* ------------------------------------------------------------------ *)
(** ** [getJSON] *)

Section GetJSON.

(** [X]: the values of a request configuration that are neither strings,
    numbers nor records of strings. *)
Variable X : Type.

Inductive Value : Type :=
| VString (s : string)
| VNumber (n : Z)
| VRecord (fields : list (string * string))
| VOther (x : X).

(** An object: its own properties, in the order of their creation. *)
Definition Object : Type := list (string * Value).

(** [o[key]], [None] when [o] has no such property. *)
Fixpoint getProperty (key : string) (o : Object) : option Value :=
  match o with
  | (k, v) :: rest => if k =? key then Some v else getProperty key rest
  | [] => None
  end.

(** [o[key] = v]: an existing property keeps its place and takes the value,
    a new one comes last. *)
Fixpoint setProperty (key : string) (v : Value) (o : Object) : Object :=
  match o with
  | (k, w) :: rest => if k =? key then (k, v) :: rest else (k, w) :: setProperty key v rest
  | [] => [(key, v)]
  end.

(** [{ ...o, ...ext }]: the properties of [ext] are set on [o] in their
    order. *)
Definition spread (o ext : Object) : Object :=
  fold_left (fun acc kv => setProperty (fst kv) (snd kv) acc) ext o.

(** [URL]: the class; [toString]: [URL.prototype.toString]. *)
Variable URL : Type.
Variable toString : URL -> string.

(** What [axios(config)] gives: [inl e] when it rejects with e, else the
    [data] of the response. *)
Variables E D : Type.
Variable axios : Object -> E + D.

(** [{ url, method: 'GET', timeout: 10000, params }] *)
Definition defaults (url : string) (params : list (string * string)) : Object :=
  [("url", VString url); ("method", VString "GET"); ("timeout", VNumber 10000);
   ("params", VRecord params)].

(** The configuration [getJSON] hands to [axios]; an absent [params] or
    [ext] is [{}]. *)
Definition config (url : string + URL) (params : option (list (string * string)))
           (ext : option Object) : Object :=
  let url := match url with inl s => s | inr u => toString u end in
  let params := match params with Some p => p | None => [] end in
  let ext := match ext with Some o => o | None => [] end in
  spread (defaults url params) ext.

(** [[
    export async function getJSON (url: string|URL, params: Record<string, string> = {}, ext: Partial<AxiosRequestConfig> = {}) {
        if (url instanceof URL) url = url.toString();
        const response = await axios({ url, method: 'GET', timeout: 10000, params, ...ext });
        return response.data;
    }
    ]] *)
Definition getJSON (url : string + URL) (params : option (list (string * string)))
           (ext : option Object) : E + D :=
  axios (config url params ext).

(** [export const getRaw = getJSON;] *)
Definition getRaw := getJSON.

End GetJSON.

Arguments VString {X} s.
Arguments VNumber {X} n.
Arguments VRecord {X} fields.
Arguments VOther {X} x.

(* ================================================================== *)
(** * Properties *)

(* ------------------------------------------------------------------ *)
(** ** Strings *)

Lemma isWhiteSpace_toLowerCaseChar (c : ascii) :
  isWhiteSpace (toLowerCaseChar c) = isWhiteSpace c.
Proof.
  destruct c as [[] [] [] [] [] [] [] []]; reflexivity.
Qed.

Lemma prefix_nil (s : string) : String.prefix "" s = true.
Proof. destruct s; reflexivity. Qed.

Lemma prefix_cons (a : ascii) (t s : string) :
  String.prefix (String a t) s = true ->
  exists s', s = String a s' /\ String.prefix t s' = true.
Proof.
  destruct s as [|c s']; simpl; [discriminate|].
  destruct (ascii_dec a c) as [->|]; [|discriminate].
  intros H. exists s'. split; [reflexivity|exact H].
Qed.

Lemma prefix_cons_same (a : ascii) (t s : string) :
  String.prefix (String a t) (String a s) = String.prefix t s.
Proof.
  simpl. destruct (ascii_dec a a) as [_|n]; [reflexivity|now destruct n].
Qed.

Lemma toLowerCase_app (s r : string) :
  toLowerCase (s ++ r) = toLowerCase s ++ toLowerCase r.
Proof.
  induction s as [|c s IH]; simpl; [reflexivity|now rewrite IH].
Qed.

Lemma prefix_app (t s r : string) :
  String.prefix t s = true -> String.prefix t (s ++ r) = true.
Proof.
  revert s. induction t as [|a t IH]; intros s H.
  - apply prefix_nil.
  - destruct (prefix_cons _ _ _ H) as (s' & -> & H'). simpl append.
    rewrite prefix_cons_same. now apply IH.
Qed.

(** What [trimEnd] keeps is the beginning of the string. *)
Lemma trimEnd_cons (c : ascii) (s : string) :
  trimEnd (String c s) = String c (trimEnd s) \/ trimEnd (String c s) = "".
Proof.
  simpl. destruct (trimEnd s).
  - destruct (isWhiteSpace c); [right|left]; reflexivity.
  - left. reflexivity.
Qed.

Lemma trimEnd_cons_visible (c : ascii) (s : string) :
  isWhiteSpace c = false -> trimEnd (String c s) = String c (trimEnd s).
Proof.
  intros H. simpl. destruct (trimEnd s); [now rewrite H|reflexivity].
Qed.

Lemma prefix_lower_trimEnd_inv (t s : string) :
  t <> "" ->
  String.prefix t (toLowerCase (trimEnd s)) = true ->
  String.prefix t (toLowerCase s) = true.
Proof.
  revert s. induction t as [|a t IH]; intros s Hne H; [now destruct Hne|].
  destruct s as [|c s]; [exact H|].
  destruct (trimEnd_cons c s) as [Heq|Heq]; rewrite Heq in H; [|discriminate].
  simpl toLowerCase in *.
  destruct (prefix_cons _ _ _ H) as (s' & Hs & H'). injection Hs as -> <-.
  rewrite prefix_cons_same.
  destruct t as [|b t]; [apply prefix_nil|].
  apply IH; [discriminate|exact H'].
Qed.

(** A prefix without white space survives [trimEnd]. *)
Lemma prefix_lower_trimEnd (t s : string) :
  forallb (fun c => negb (isWhiteSpace c)) (list_ascii_of_string t) = true ->
  String.prefix t (toLowerCase s) = true ->
  String.prefix t (toLowerCase (trimEnd s)) = true.
Proof.
  revert s. induction t as [|a t IH]; intros s Hvis H; [apply prefix_nil|].
  destruct s as [|c s]; [discriminate|].
  simpl in Hvis. apply andb_prop in Hvis as [Ha Ht].
  simpl toLowerCase in H.
  destruct (prefix_cons _ _ _ H) as (s' & Hs & H'). injection Hs as Hc <-.
  rewrite trimEnd_cons_visible.
  - simpl toLowerCase. rewrite Hc, prefix_cons_same. now apply IH.
  - rewrite <- isWhiteSpace_toLowerCaseChar, Hc. now apply negb_true_iff.
Qed.

Lemma trimStart_app (s r : string) :
  trimStart s <> "" -> trimStart (s ++ r) = trimStart s ++ r.
Proof.
  induction s as [|c s IH]; simpl; intros H; [now destruct H|].
  destruct (isWhiteSpace c); [now apply IH|reflexivity].
Qed.

(** The prefix test of the classifier does not look past the prefix. *)
Lemma startsWith_trim_app (t s r : string) :
  t <> "" ->
  forallb (fun c => negb (isWhiteSpace c)) (list_ascii_of_string t) = true ->
  startsWith (toLowerCase (trim s)) t = true ->
  startsWith (toLowerCase (trim (s ++ r))) t = true.
Proof.
  unfold startsWith, trim. intros Hne Hvis H.
  assert (Hs : trimStart s <> "").
  { intros Heq. rewrite Heq in H. destruct t; [now destruct Hne|discriminate]. }
  rewrite trimStart_app by exact Hs.
  apply prefix_lower_trimEnd; [exact Hvis|].
  rewrite toLowerCase_app. apply prefix_app.
  now apply prefix_lower_trimEnd_inv.
Qed.

Lemma allowedPrefix_app (s r : string) :
  allowedPrefix s = true -> allowedPrefix (s ++ r) = true.
Proof.
  unfold allowedPrefix, allowedTypes. simpl. intros H.
  repeat (apply orb_prop in H as [H|H]); try discriminate;
    apply (startsWith_trim_app s r) in H; try reflexivity; try discriminate;
    rewrite H; repeat rewrite orb_true_r; reflexivity.
Qed.

(* ------------------------------------------------------------------ *)
(** ** The classifier *)

Lemma allowedPrefix_false (ty : string) :
  allowedPrefix ty = false <->
  forall t, In t allowedTypes -> startsWith (toLowerCase (trim ty)) t = false.
Proof.
  unfold allowedPrefix. split.
  - intros H t Ht. destruct (startsWith (toLowerCase (trim ty)) t) eqn:Hp; [|reflexivity].
    assert (Hex : existsb (fun t0 => startsWith (toLowerCase (trim ty)) t0) allowedTypes = true)
      by (apply existsb_exists; exists t; split; assumption).
    congruence.
  - intros H. destruct (existsb _ allowedTypes) eqn:Hex; [|reflexivity].
    apply existsb_exists in Hex as (t & Ht & Hp). rewrite (H t Ht) in Hp. discriminate.
Qed.

Section ClassifierProperties.

Variable mime_extension : string -> option string.

Local Abbreviation classify := (getMediaMimeExtension mime_extension).

Lemma classify_accepted (ty ext : string) :
  classify (Some ty) = Some ext <->
  ty <> "" /\ allowedPrefix ty = true
  /\ exists e, mime_extension ty = Some e /\ ext = if e =? "jpeg" then "jpg" else e.
Proof.
  unfold getMediaMimeExtension.
  destruct (String.eqb_spec ty "") as [->|Hne]; simpl.
  - split; [discriminate|]. intros (H & _). now destruct H.
  - destruct (allowedPrefix ty); simpl.
    + destruct (mime_extension ty) as [e|].
      * split.
        -- intros [= <-]. repeat split; try assumption. now exists e.
        -- intros (_ & _ & e' & [= <-] & ->). reflexivity.
      * split; [discriminate|]. intros (_ & _ & e' & He & _). discriminate.
    + split; [discriminate|]. intros (_ & H & _). discriminate.
Qed.

Lemma classify_never_jpeg (type : option string) : classify type <> Some "jpeg".
Proof.
  destruct type as [ty|]; [|discriminate].
  intros H. apply classify_accepted in H as (_ & _ & e & _ & He).
  destruct (e =? "jpeg") eqn:Heq; [discriminate|].
  apply String.eqb_neq in Heq. congruence.
Qed.

(** C4. The classifier rejects (returns [false]) exactly when the type is
    absent or empty, or its trimmed lowercased form starts with none of
    [image/], [audio/], [video/], or the table has no extension for it; in
    every other case it returns an extension, the table's one or [jpg]
    in place of [jpeg]. *)
Theorem C4_rejected_exactly_when (type : option string) :
  (classify type = None <->
     type = None
     \/ type = Some ""
     \/ (exists ty, type = Some ty
         /\ forall t, In t ["image/"; "audio/"; "video/"] ->
                      startsWith (toLowerCase (trim ty)) t = false)
     \/ (exists ty, type = Some ty /\ mime_extension ty = None))
  /\ (forall ext, classify type = Some ext ->
        exists ty e, type = Some ty /\ mime_extension ty = Some e
                     /\ ext = if e =? "jpeg" then "jpg" else e)
  /\ (classify type = None \/ exists ext, classify type = Some ext).
Proof.
  split; [|split].
  - destruct type as [ty|]; [|split; [now left|reflexivity]].
    unfold getMediaMimeExtension.
    destruct (String.eqb_spec ty "") as [->|Hne]; simpl;
      [split; [now right; left|reflexivity]|].
    destruct (allowedPrefix ty) eqn:Hp; simpl.
    + destruct (mime_extension ty) as [e|] eqn:He.
      * split; [discriminate|].
        intros [H|[H|[(ty' & [= <-] & H)|(ty' & [= <-] & H)]]]; try discriminate.
        -- injection H as ->. now destruct Hne.
        -- apply allowedPrefix_false in H. congruence.
        -- congruence.
      * split; [|reflexivity]. intros _. right; right; right. now exists ty.
    + split; [|reflexivity]. intros _. right; right; left. exists ty.
      split; [reflexivity|]. now apply allowedPrefix_false.
  - intros ext H. destruct type as [ty|]; [|discriminate].
    apply classify_accepted in H as (_ & _ & e & He & Hext).
    now exists ty, e.
  - destruct (classify type) as [ext|]; [right; now exists ext|now left].
Qed.

(** C5, as the code has it. With a table that lists [jpeg] first for
    [image/jpeg] the classifier gives [jpg]; for [audio/mpeg] it gives
    the extension the table lists first, whichever that is; whatever the
    table, it never gives [jpeg], and a type whose default extension is
    not [jpeg] gets the table's default extension. *)
Theorem C5_jpeg_becomes_jpg :
  (mime_extension "image/jpeg" = Some "jpeg" -> classify (Some "image/jpeg") = Some "jpg")
  /\ (forall ext, mime_extension "audio/mpeg" = Some ext -> ext <> "jpeg" ->
                  classify (Some "audio/mpeg") = Some ext)
  /\ (forall type, classify type <> Some "jpeg")
  /\ (forall ty ext, classify (Some ty) = Some ext ->
                     mime_extension ty <> Some "jpeg" ->
                     mime_extension ty = Some ext).
Proof.
  repeat split.
  - intros Hjpeg. apply classify_accepted. repeat split; [discriminate|]. now exists "jpeg".
  - intros ext Hmpeg Hne. apply classify_accepted. repeat split; [discriminate|].
    exists ext. split; [exact Hmpeg|].
    apply String.eqb_neq in Hne. now rewrite Hne.
  - apply classify_never_jpeg.
  - intros ty ext H Hne. apply classify_accepted in H as (_ & _ & e & He & ->).
    destruct (e =? "jpeg") eqn:Heq; [|exact He].
    apply String.eqb_eq in Heq. congruence.
Qed.

(** What follows an accepted type does not matter to the prefix test; it
    matters to the classifier through the table lookup only. *)
Lemma classify_suffix (base rest ext : string) :
  classify (Some base) = Some ext ->
  mime_extension (base ++ rest) = mime_extension base ->
  allowedPrefix (base ++ rest) = true /\ classify (Some (base ++ rest)) = Some ext.
Proof.
  intros H Hlookup. apply classify_accepted in H as (Hne & Hp & e & He & ->).
  assert (Hp' : allowedPrefix (base ++ rest) = true) by now apply allowedPrefix_app.
  split; [exact Hp'|].
  apply classify_accepted. repeat split.
  - destruct base; [now destruct Hne|discriminate].
  - exact Hp'.
  - exists e. split; [congruence|reflexivity].
Qed.

(** C10. A header value made of a type the classifier accepts, then [;]
    and parameters, passes the prefix test as the type alone does; when
    the table lookup gives for the whole value what it gives for the type,
    the classifier accepts the value with the extension of the type. *)
Theorem C10_parameters_are_ignored (base params ext : string) :
  classify (Some base) = Some ext ->
  mime_extension (base ++ ";" ++ params) = mime_extension base ->
  allowedPrefix (base ++ ";" ++ params) = true
  /\ classify (Some (base ++ ";" ++ params)) = Some ext.
Proof.
  intros H Hlookup. now apply classify_suffix.
Qed.

End ClassifierProperties.

(** The lookup in the manner of the package gives for a type followed by
    parameters what it gives for the type. *)
Lemma token_semicolon (u p : string) :
  MimeTypes.token (u ++ String ";" p) = MimeTypes.token u.
Proof.
  induction u as [|c u IH]; simpl.
  - reflexivity.
  - destruct (isWhiteSpace c || (c =? ";")%char); [reflexivity|now rewrite IH].
Qed.

Lemma trimStart_blank (s r : string) :
  trimStart s = "" -> trimStart (s ++ r) = trimStart r.
Proof.
  induction s as [|c s IH]; simpl; [reflexivity|].
  destruct (isWhiteSpace c); [exact IH|discriminate].
Qed.

Lemma MimeTypes_extension_parameters (db : string -> list string) (base params : string) :
  base <> "" ->
  MimeTypes.extension db (base ++ ";" ++ params) = MimeTypes.extension db base.
Proof.
  intros Hne. unfold MimeTypes.extension, MimeTypes.extractType.
  destruct base as [|c base]; [now destruct Hne|]. simpl String.eqb.
  change (String c base ++ ";" ++ params) with (String c base ++ String ";" params).
  destruct (trimStart (String c base)) eqn:Hts.
  - rewrite trimStart_blank by exact Hts. simpl. reflexivity.
  - rewrite trimStart_app by (rewrite Hts; discriminate).
    rewrite Hts, token_semicolon. reflexivity.
Qed.

(** With that lookup, whatever the table, parameters never change what
    the classifier answers for an accepted type. *)
Lemma parameters_ignored_with_MimeTypes (db : string -> list string)
      (base params ext : string) :
  getMediaMimeExtension (MimeTypes.extension db) (Some base) = Some ext ->
  getMediaMimeExtension (MimeTypes.extension db) (Some (base ++ ";" ++ params)) = Some ext.
Proof.
  intros H. apply classify_suffix; [exact H|].
  apply MimeTypes_extension_parameters.
  apply classify_accepted in H as (Hne & _). exact Hne.
Qed.

(* ------------------------------------------------------------------ *)
(** ** Rounding to hundredths *)

Section RoundingProperties.

Local Open Scope Z_scope.

Variable up : Z -> bool.

(** The result is an integer nearest to 100 * a / b, whichever way
    midpoints go. *)
Lemma nearestHundredth_near (a b : Z) :
  0 < b ->
  - b <= 2 * (100 * a - nearestHundredth up a b * b) <= b.
Proof.
  intros Hb. unfold nearestHundredth.
  pose proof (Z.div_mod (100 * a) b ltac:(lia)) as Hdm.
  pose proof (Z.mod_pos_bound (100 * a) b Hb) as Hr.
  set (q := 100 * a / b) in *. set (r := (100 * a) mod b) in *.
  destruct (Z.compare_spec (2 * r) b); [destruct (up q)| |]; nia.
Qed.

Lemma nearestHundredth_mono (a a' b : Z) :
  0 < b -> a <= a' -> nearestHundredth up a b <= nearestHundredth up a' b.
Proof.
  intros Hb Ha.
  destruct (Z.eq_dec a a') as [->|Hne]; [lia|].
  pose proof (nearestHundredth_near a Hb).
  pose proof (nearestHundredth_near a' Hb).
  nia.
Qed.

Lemma nearestHundredth_whole (b : Z) : 0 < b -> nearestHundredth up b b = 100.
Proof.
  intros Hb. pose proof (nearestHundredth_near b Hb). nia.
Qed.

Lemma nearestHundredth_zero (b : Z) : 0 < b -> nearestHundredth up 0 b = 0.
Proof.
  intros Hb. pose proof (nearestHundredth_near 0 Hb). nia.
Qed.

End RoundingProperties.

Lemma fraction_positive (a b : Z) :
  (0 < b)%Z -> fraction a b = Hundredths (toFixed2 a b).
Proof.
  intros Hb. unfold fraction. destruct (Z.eqb_spec b 0); [lia|reflexivity].
Qed.

Lemma fraction_mono (a a' b : Z) :
  (0 < b)%Z -> (a <= a')%Z -> number_leb (fraction a b) (fraction a' b) = true.
Proof.
  intros Hb Ha. rewrite !fraction_positive by exact Hb. simpl.
  apply Z.leb_le. now apply nearestHundredth_mono.
Qed.

(** On the grid of quotients, the rounding agrees with the computation on
    IEEE doubles, midpoints included. *)
Lemma fraction_binary64_grid :
  forall a b, In (a, b) Sample.grid ->
              fraction a b = toFixed2_binary64 (divide a b).
Proof.
  assert (H : forallb (fun p => number_eqb (fraction (fst p) (snd p))
                                           (toFixed2_binary64 (divide (fst p) (snd p))))
                      Sample.grid = true) by (vm_compute; reflexivity).
  intros a b Hin. rewrite forallb_forall in H. specialize (H _ Hin). simpl in H.
  destruct (fraction a b), (toFixed2_binary64 (divide a b)); simpl in H;
    try discriminate; try reflexivity.
  apply Z.eqb_eq in H. now subst.
Qed.

(* ------------------------------------------------------------------ *)
(** ** The listeners, event by event *)

Ltac handlers :=
  unfold step, onData, pipe, onClose, onError, reject, resolve, settle, call, endWriter in *;
  simpl in *.

(** Case analysis on what the listeners test: the flags of the state, the
    promise and the declared length. *)
Ltac flags s :=
  destruct s as [[? ? ?] ? ? ? ? ?]; simpl in *; subst;
  repeat match goal with
         | b : bool |- _ => destruct b
         | p : option (Settled _) |- _ => destruct p
         end;
  simpl in *.

Ltac listeners s ev :=
  flags s; destruct ev; handlers;
  try match goal with
      | |- context [totalLength ?cl] => destruct (totalLength cl) eqn:?
      | H : context [totalLength ?cl] |- _ => destruct (totalLength cl) eqn:?
      end;
  simpl in *.

Section ListenerProperties.

Variable E : Type.
Variable cl : Closure.

Implicit Types (s : State E) (ev : Event E) (events : list (Event E)).

Lemma run_app s events events' :
  run cl s (events ++ events') = run cl (run cl s events) events'.
Proof. apply fold_left_app. Qed.

Lemma run_cons s ev events : run cl s (ev :: events) = run cl (step cl s ev) events.
Proof. reflexivity. Qed.

Lemma run_one s ev : run cl s [ev] = step cl s ev.
Proof. reflexivity. Qed.

(** A settled promise stays as it is. *)
Lemma step_settled s ev v : promise s = Some v -> promise (step cl s ev) = Some v.
Proof. intros H. listeners s ev; congruence. Qed.

Lemma run_settled s events v : promise s = Some v -> promise (run cl s events) = Some v.
Proof.
  revert s. induction events as [|ev events IH]; intros s H; [exact H|].
  rewrite run_cons. apply IH. now apply step_settled.
Qed.

(** Nothing in [downloadMedia] lowers [prog.shouldStop]. *)
Lemma step_shouldStop s ev :
  shouldStop (prog s) = true -> shouldStop (prog (step cl s ev)) = true.
Proof. intros H. listeners s ev; congruence. Qed.

Lemma run_shouldStop s events :
  shouldStop (prog s) = true -> shouldStop (prog (run cl s events)) = true.
Proof.
  revert s. induction events as [|ev events IH]; intros s H; [exact H|].
  rewrite run_cons. apply IH. now apply step_shouldStop.
Qed.

Lemma run_not_stopped s events :
  shouldStop (prog (run cl s events)) = false -> shouldStop (prog s) = false.
Proof.
  intros H. destruct (shouldStop (prog s)) eqn:Hs; [|reflexivity].
  rewrite (run_shouldStop s events Hs) in H. discriminate.
Qed.

(** An ended writer stays ended, and the disk stays as it is. *)
Lemma step_ended s ev : writerEnded s = true -> writerEnded (step cl s ev) = true.
Proof. intros H. listeners s ev; congruence. Qed.

Lemma step_ended_disk s ev : writerEnded s = true -> disk (step cl s ev) = disk s.
Proof. intros H. listeners s ev; congruence. Qed.

Lemma run_ended_disk s events :
  writerEnded s = true -> disk (run cl s events) = disk s.
Proof.
  revert s. induction events as [|ev events IH]; intros s H; [reflexivity|].
  rewrite run_cons, IH by now apply step_ended. now apply step_ended_disk.
Qed.

(** With [prog.shouldStop] set, a pending promise is not resolved. *)
Lemma step_stopped_unresolved s ev :
  shouldStop (prog s) = true ->
  (forall x, promise s <> Some (Resolved x)) ->
  forall x, promise (step cl s ev) <> Some (Resolved x).
Proof.
  intros Hs Hp x. specialize (Hp x). listeners s ev; congruence.
Qed.

Lemma run_stopped_unresolved s events :
  shouldStop (prog s) = true ->
  (forall x, promise s <> Some (Resolved x)) ->
  forall x, promise (run cl s events) <> Some (Resolved x).
Proof.
  revert s. induction events as [|ev events IH]; intros s Hs Hp; [exact Hp|].
  rewrite run_cons. apply IH; [now apply step_shouldStop|now apply step_stopped_unresolved].
Qed.

(** A promise is resolved by a ['close'] of the writer that finds it
    pending and [prog.shouldStop] unset, and in no other way. *)
Lemma step_resolves s ev x :
  promise s = None -> promise (step cl s ev) = Some (Resolved x) ->
  ev = WriterClosed /\ shouldStop (prog s) = false /\ x = ext cl.
Proof.
  intros Hp H. listeners s ev; try congruence.
  all: injection H as <-; repeat split.
Qed.

Lemma run_resolves s events x :
  promise s = None -> promise (run cl s events) = Some (Resolved x) ->
  x = ext cl
  /\ exists pre post, events = (pre ++ WriterClosed :: post)%list
                      /\ promise (run cl s pre) = None
                      /\ shouldStop (prog (run cl s pre)) = false.
Proof.
  revert s. induction events as [|ev events IH]; intros s Hp H; [simpl in H; congruence|].
  rewrite run_cons in H.
  destruct (promise (step cl s ev)) as [v|] eqn:Hstep.
  - rewrite (run_settled _ events Hstep) in H. injection H as ->.
    destruct (step_resolves s ev Hp Hstep) as (-> & Hs & ->).
    split; [reflexivity|]. exists [], events. repeat split; assumption.
  - destruct (IH _ Hstep H) as (-> & pre & post & -> & Hpre & Hs).
    split; [reflexivity|]. exists (ev :: pre), post. repeat split; assumption.
Qed.

(** The calls made are kept, below the later ones. *)
Lemma step_calls s ev : exists later, calls (step cl s ev) = (later ++ calls s)%list.
Proof.
  listeners s ev;
    solve [now exists [] | now exists [Cancel; WriterClose; ConsoleDebug "cancel direct dl" (url cl)]].
Qed.

Lemma run_calls s events : exists later, calls (run cl s events) = (later ++ calls s)%list.
Proof.
  revert s. induction events as [|ev events IH]; intros s; [now exists []|].
  rewrite run_cons. destruct (IH (step cl s ev)) as (l1 & ->).
  destruct (step_calls s ev) as (l2 & ->). exists (l1 ++ l2)%list. now rewrite app_assoc.
Qed.

End ListenerProperties.

(* ------------------------------------------------------------------ *)
(** ** Progress, when the response declares its length *)

Section ProgressProperties.

Local Open Scope Z_scope.

Variable E : Type.
Variable cl : Closure.
Variable total : N.
Hypothesis declared : totalLength cl = Some total.

Implicit Types (s : State E) (ev : Event E) (events : list (Event E)).

Local Abbreviation synced := (synced total).

Lemma step_downloaded s ev :
  shouldStop (prog (step cl s ev)) = false ->
  downloaded (step cl s ev) = downloaded s + bytes [ev].
Proof.
  intros H. listeners s ev; try discriminate; try congruence; lia.
Qed.

Lemma run_downloaded s events :
  shouldStop (prog (run cl s events)) = false ->
  downloaded (run cl s events) = downloaded s + bytes events.
Proof.
  revert s. induction events as [|ev events IH]; intros s H; [simpl; lia|].
  rewrite run_cons in *. rewrite (IH _ H).
  rewrite step_downloaded by (now apply run_not_stopped with (cl := cl) (events := events)).
  destruct ev; simpl; lia.
Qed.

Lemma step_downloaded_le s ev : downloaded s <= downloaded (step cl s ev).
Proof. listeners s ev; try congruence; lia. Qed.

(** A chunk that arrives with [prog.shouldStop] unset is processed. *)
Lemma step_processed s chunk :
  shouldStop (prog s) = false ->
  knowsPercent (prog (step cl s (Data chunk))) = true
  /\ downloaded (step cl s (Data chunk)) = downloaded s + Z.of_nat (List.length chunk)
  /\ synced (step cl s (Data chunk)).
Proof.
  intros H. unfold synced. flags s; handlers; rewrite declared; simpl; repeat split.
Qed.

Lemma step_synced s ev : synced s -> synced (step cl s ev).
Proof.
  unfold synced. intros H. listeners s ev; congruence.
Qed.

Lemma step_started s ev :
  downloaded s = 0 \/ synced s ->
  downloaded (step cl s ev) = 0 \/ synced (step cl s ev).
Proof.
  intros [H|H]; [|right; now apply step_synced].
  unfold synced. listeners s ev; try congruence; try (left; congruence); right; congruence.
Qed.

Lemma run_started s events :
  downloaded s = 0 \/ synced s ->
  downloaded (run cl s events) = 0 \/ synced (run cl s events).
Proof.
  revert s. induction events as [|ev events IH]; intros s H; [exact H|].
  rewrite run_cons. apply IH. now apply step_started.
Qed.

Lemma run_synced s events :
  synced s -> synced (run cl s events) /\ downloaded s <= downloaded (run cl s events).
Proof.
  revert s. induction events as [|ev events IH]; intros s H; [split; [exact H|simpl; lia]|].
  rewrite run_cons. destruct (IH _ (step_synced ev H)) as (Hs & Hd).
  split; [exact Hs|]. pose proof (step_downloaded_le s ev). lia.
Qed.

(** Once a chunk has been processed, [prog.percent] does not decrease. *)
Lemma run_percent_mono s events :
  (0 < total)%N -> synced s ->
  number_leb (percent (prog s)) (percent (prog (run cl s events))) = true.
Proof.
  intros Hpos H. destruct (run_synced events H) as (Hs & Hd).
  unfold synced in *. rewrite H, Hs. apply fraction_mono; lia.
Qed.

End ProgressProperties.

(* ------------------------------------------------------------------ *)
(** ** More on single events *)

Section EventProperties.

Variable E : Type.
Variable cl : Closure.

Implicit Types (s : State E) (ev : Event E) (events : list (Event E)).

(** The listener of ['data'] when it finds [prog.shouldStop] set: the
    state changes by the three calls and the ended writer only. *)
Lemma step_data_stopped s chunk :
  shouldStop (prog s) = true ->
  step cl s (Data chunk)
  = mkState (prog s) (downloaded s) true (disk s)
            (Cancel :: WriterClose :: ConsoleDebug "cancel direct dl" (url cl) :: calls s)
            (promise s).
Proof.
  intros H. unfold step, onData. rewrite H. reflexivity.
Qed.

(** Only the events of the writer settle the promise. *)
Lemma step_silent s ev :
  writerSilent [ev] = true -> promise (step cl s ev) = promise s.
Proof.
  intros H. listeners s ev; try discriminate; reflexivity.
Qed.

Lemma run_silent s events :
  writerSilent events = true -> promise (run cl s events) = promise s.
Proof.
  revert s. induction events as [|ev events IH]; intros s H; [reflexivity|].
  simpl in H. apply andb_prop in H as [Hev H].
  rewrite run_cons, IH by exact H. apply step_silent. simpl. now rewrite Hev.
Qed.

Lemma step_closed_stopped s :
  promise s = None -> shouldStop (prog s) = true ->
  promise (step cl s WriterClosed)
  = Some (Rejected (GracefulStopError "Interrupted http download.")).
Proof.
  intros Hp Hs. unfold step, onClose, reject, settle, endWriter. simpl.
  rewrite Hs. simpl. rewrite Hp. reflexivity.
Qed.

Lemma step_closed_ended s :
  writerEnded (step cl s WriterClosed) = true /\ disk (step cl s WriterClosed) = disk s.
Proof.
  unfold step, onClose, resolve, reject, settle, endWriter. simpl.
  destruct (shouldStop (prog s)), (promise s); split; reflexivity.
Qed.

Lemma step_closed_prog s : prog (step cl s WriterClosed) = prog s.
Proof.
  unfold step, onClose, resolve, reject, settle, endWriter. simpl.
  destruct (shouldStop (prog s)), (promise s); reflexivity.
Qed.

Lemma step_writer_error s e :
  promise s = None -> promise (step cl s (WriterError e)) = Some (Rejected (Raised e)).
Proof.
  intros Hp. unfold step, onError, reject, settle. rewrite Hp. reflexivity.
Qed.

(** No listener of [downloadMedia] hears an error of the response stream. *)
Lemma step_response_error s e : step cl s (ResponseError e) = s.
Proof. reflexivity. Qed.

Lemma store_same (d : Disk) (path : string) (b : list Byte.byte) :
  store d path b path = Some b.
Proof. unfold store. now rewrite String.eqb_refl. Qed.

(** When the promise is resolved, the file holds what it held, then the
    chunks delivered until the writer closed. *)
Lemma run_body s events x (w : list Byte.byte) :
  promise s = None -> writerEnded s = false -> disk s (dest cl) = Some w ->
  promise (run cl s events) = Some (Resolved x) ->
  disk (run cl s events) (dest cl) = Some (w ++ body events)%list.
Proof.
  revert s w. induction events as [|ev events IH]; intros s w Hp He Hd H;
    [simpl in H; congruence|].
  rewrite run_cons in *.
  destruct ev as [|chunk|e|e|].
  - exfalso. refine (run_stopped_unresolved cl _ events _ _ H).
    + reflexivity.
    + simpl. rewrite Hp. discriminate.
  - destruct (shouldStop (prog s)) eqn:Hs.
    + exfalso. refine (run_stopped_unresolved cl _ events _ _ H).
      * now apply step_shouldStop.
      * rewrite step_silent by reflexivity. rewrite Hp. discriminate.
    + simpl body. rewrite app_assoc. apply IH; try assumption.
      * rewrite step_silent by reflexivity. exact Hp.
      * unfold step, onData, pipe. rewrite Hs.
        destruct (totalLength cl); simpl; rewrite He; reflexivity.
      * unfold step, onData, pipe. rewrite Hs.
        destruct (totalLength cl); simpl; rewrite He; simpl;
          unfold contents; rewrite Hd; apply store_same.
  - simpl body. now apply IH.
  - exfalso. rewrite (run_settled cl _ events (step_writer_error s e Hp)) in H.
    discriminate.
  - destruct (step_closed_ended s) as (Hended & Hdisk).
    simpl body. rewrite app_nil_r, run_ended_disk, Hdisk by exact Hended. exact Hd.
Qed.

End EventProperties.

(* ------------------------------------------------------------------ *)
(** ** What the listeners hear of a delivery *)

Section HeardProperties.

Variable E : Type.
Variable cl : Closure.
Variable w : E.

Implicit Types (s : State E) (ev : Event E) (events : list (Event E)).

(** An event of the writer settles the promise, if nothing has. *)
Lemma step_writer_settles s ev :
  writerSilent [ev] = false -> promise (step cl s ev) <> None.
Proof. intros H. listeners s ev; discriminate. Qed.

Lemma run_pending s events : promise (run cl s events) = None -> promise s = None.
Proof.
  intros H. destruct (promise s) as [v|] eqn:Hp; [|reflexivity].
  rewrite (run_settled cl s events Hp) in H. discriminate.
Qed.

(** As long as the call is pending the writer has emitted nothing, and
    what the listeners hear of a longer delivery starts with what they
    have heard. *)
Lemma heard_pending pre : forall s post,
  promise (run cl s (heard w (shouldStop (prog s)) pre)) = None ->
  heard w (shouldStop (prog s)) (pre ++ post)
  = (heard w (shouldStop (prog s)) pre
     ++ heard w (shouldStop (prog (run cl s (heard w (shouldStop (prog s)) pre)))) post)%list.
Proof.
  induction pre as [|ev pre IH]; intros s post H; [reflexivity|].
  destruct ev as [|chunk|e|e|]; cbn [heard app] in *.
  - rewrite run_cons in *. f_equal. exact (IH (step cl s StopRequested) post H).
  - destruct (shouldStop (prog s)) eqn:Hs.
    + exfalso. rewrite !run_cons in H. apply run_pending in H.
      revert H. apply step_writer_settles. reflexivity.
    + rewrite run_cons in *. cbn [app]. f_equal.
      assert (Hkeep : shouldStop (prog (step cl s (Data chunk))) = false)
        by (unfold step, onData, pipe; rewrite Hs;
            destruct (totalLength cl), (writerEnded s); reflexivity).
      pose proof (IH (step cl s (Data chunk)) post) as IH'.
      rewrite Hkeep in IH'. exact (IH' H).
  - rewrite run_cons in *. cbn [app]. f_equal. exact (IH s post H).
  - exfalso. rewrite run_cons in H. apply run_pending in H.
    revert H. apply step_writer_settles. reflexivity.
  - exfalso. rewrite run_cons in H. apply run_pending in H.
    revert H. apply step_writer_settles. reflexivity.
Qed.

End HeardProperties.

(* ------------------------------------------------------------------ *)
(** ** [downloadMedia] *)

Section DownloadProperties.

Variable E : Type.
Variable mime_extension : string -> option string.
Variable mkParents : string -> option E.
Variable disk0 : Disk.
Variables url filePath : string.
Variable prog0 : DownloadProgress.

Local Abbreviation dm response :=
  (downloadMedia mime_extension response mkParents disk0 url filePath prog0).

Local Abbreviation classify := (getMediaMimeExtension mime_extension).

Implicit Types (events pre post rest : list (Event E)) (chunk : Chunk).

(** *** Before the listeners are registered *)

Lemma request_failure e events :
  dm (inl e) events = reject (Raised e) (enter prog0 disk0).
Proof. reflexivity. Qed.

Lemma mkParents_failure headers x e events :
  classify (content_type headers) = Some x -> (x =? "") = false ->
  mkParents filePath = Some e ->
  dm (inr headers) events
  = reject (Raised e) (call (MkParents filePath) (enter prog0 disk0)).
Proof.
  intros Hx Hne Hmk. unfold downloadMedia. now rewrite Hx, Hne, Hmk.
Qed.

(** A call that is pending or resolved has come to register its
    listeners. *)
Lemma downloadMedia_started response events :
  promise (dm response events) = None
  \/ (exists x, promise (dm response events) = Some (Resolved x)) ->
  exists headers x,
    response = inr headers /\ classify (content_type headers) = Some x
    /\ (x =? "") = false /\ mkParents filePath = None.
Proof.
  unfold downloadMedia. destruct response as [e|headers].
  - intros [H|[x H]]; discriminate.
  - destruct (classify (content_type headers)) as [x|] eqn:Hx;
      [|intros [H|[x H]]; discriminate].
    destruct (x =? "") eqn:Hne; [intros [H|[y H]]; discriminate|].
    destruct (mkParents filePath) eqn:Hmk; [intros [H|[y H]]; discriminate|].
    intros _. now exists headers, x.
Qed.

(** C3. When the classifier rejects the content type of the response
    (it returns [false], or an empty extension), the call rejects with the
    error "Attempted to download non-media mimetype." whatever happens
    next, having made no call on the file system: no directory is made,
    no file is opened, the disk is as it was. *)
Theorem C3_rejected_mimetype_creates_no_file (headers : Headers) events :
  truthy (classify (content_type headers)) = false ->
  promise (dm (inr headers) events)
  = Some (Rejected (Error "Attempted to download non-media mimetype."))
  /\ calls (dm (inr headers) events) = []
  /\ disk (dm (inr headers) events) = disk0
  /\ prog (dm (inr headers) events) = prog0.
Proof.
  unfold downloadMedia, truthy.
  destruct (classify (content_type headers)) as [x|]; [|intros _; repeat split].
  destruct (x =? ""); [intros _; repeat split|discriminate].
Qed.

(** *** While the listeners are registered *)

Section Streaming.

Variable headers : Headers.
Variable x : string.
Hypothesis accepted : classify (content_type headers) = Some x.
Hypothesis nonempty : (x =? "") = false.
Hypothesis prepared : mkParents filePath = None.

Local Abbreviation cl0 :=
  (mkClosure url x (content_length headers) (filePath ++ "." ++ x)).

Local Abbreviation s1 :=
  (createWriteStream (filePath ++ "." ++ x)
                     (call (MkParents filePath) (enter (E := E) prog0 disk0))).

Lemma downloadMedia_run events : dm (inr headers) events = run cl0 s1 events.
Proof. unfold downloadMedia. now rewrite accepted, nonempty, prepared. Qed.

Lemma downloadMedia_app pre post :
  dm (inr headers) (pre ++ post) = run cl0 (dm (inr headers) pre) post.
Proof. rewrite !downloadMedia_run. apply run_app. Qed.

Variable ERR_STREAM_WRITE_AFTER_END : E.

Local Abbreviation heard0 := (heard ERR_STREAM_WRITE_AFTER_END (shouldStop prog0)).

(** C1, with the writer of Node. When a chunk is delivered while
    [prog.shouldStop] is set and the call is pending: the progress is not
    updated for it, [writer.close()] and then [cancel()] are called, and
    nothing is written to the disk from then on, this chunk included, as
    C1 has it. But the pipe hands the chunk to the writer that the
    listener has just closed, the writer answers with its error, and the
    call rejects with that error whatever follows, the ['close'] of the
    writer included: the outcome is not [GracefulStopError]. *)
Theorem C1_stop_at_a_chunk_rejects_with_the_write_error pre chunk rest :
  promise (downloadMedia mime_extension (inr headers) mkParents disk0 url filePath prog0
                         (heard0 pre))
  = None ->
  shouldStop (prog (downloadMedia mime_extension (inr headers) mkParents disk0 url filePath
                                  prog0 (heard0 pre)))
  = true ->
  prog (dm (inr headers) (heard0 (pre ++ [Data chunk])))
  = prog (dm (inr headers) (heard0 pre))
  /\ downloaded (dm (inr headers) (heard0 (pre ++ [Data chunk])))
     = downloaded (dm (inr headers) (heard0 pre))
  /\ calls (dm (inr headers) (heard0 (pre ++ [Data chunk])))
     = Cancel :: WriterClose :: ConsoleDebug "cancel direct dl" url
              :: calls (dm (inr headers) (heard0 pre))
  /\ writerEnded (dm (inr headers) (heard0 (pre ++ [Data chunk]))) = true
  /\ disk (dm (inr headers) (heard0 (pre ++ Data chunk :: rest)))
     = disk (dm (inr headers) (heard0 pre))
  /\ promise (dm (inr headers) (heard0 (pre ++ Data chunk :: rest)))
     = Some (Rejected (Raised ERR_STREAM_WRITE_AFTER_END)).
Proof.
  intros Hp Hs.
  assert (Hheard : forall post,
             dm (inr headers) (heard0 (pre ++ Data chunk :: post))
             = run cl0 (dm (inr headers) (heard0 pre))
                   (Data chunk :: WriterError ERR_STREAM_WRITE_AFTER_END :: post)).
  { intros post. rewrite downloadMedia_run in Hp, Hs.
    change (shouldStop prog0) with (shouldStop (prog s1)) in *.
    rewrite (heard_pending cl0 _ pre s1 _ Hp), Hs.
    rewrite !downloadMedia_run.
    now rewrite run_app. }
  assert (Hstate : forall post,
             dm (inr headers) (heard0 (pre ++ Data chunk :: post))
             = run cl0
                   (mkState (prog (dm (inr headers) (heard0 pre)))
                            (downloaded (dm (inr headers) (heard0 pre))) true
                            (disk (dm (inr headers) (heard0 pre)))
                            (Cancel :: WriterClose :: ConsoleDebug "cancel direct dl" url
                                    :: calls (dm (inr headers) (heard0 pre)))
                            (Some (Rejected (Raised ERR_STREAM_WRITE_AFTER_END))))
                   post).
  { intros post. rewrite Hheard, !run_cons, (step_data_stopped cl0 _ chunk Hs).
    unfold step, onError, reject, settle. cbn [promise]. now rewrite Hp. }
  rewrite !Hstate. repeat split.
  - now rewrite run_ended_disk.
  - now apply run_settled.
Qed.

(** Without a declared length, a processed chunk sets
    [prog.knowsPercent] to false and leaves [prog.percent] as it is. *)
Lemma undeclared_length pre chunk :
  content_length headers = None ->
  shouldStop
    (prog (downloadMedia mime_extension (inr headers) mkParents disk0 url filePath prog0 pre))
  = false ->
  knowsPercent
    (prog (downloadMedia mime_extension (inr headers) mkParents disk0 url filePath prog0
                         (pre ++ [Data chunk])))
  = false
  /\ percent
       (prog (downloadMedia mime_extension (inr headers) mkParents disk0 url filePath prog0
                            (pre ++ [Data chunk])))
     = percent
         (prog (downloadMedia mime_extension (inr headers) mkParents disk0 url filePath
                              prog0 pre)).
Proof.
  intros Hnone Hs. rewrite (downloadMedia_app pre [Data chunk]), run_one.
  set (s := dm (inr headers) pre) in *.
  unfold step, onData, pipe. rewrite Hs. cbn [totalLength]. rewrite Hnone.
  cbn [writerEnded]. destruct (writerEnded s); split; reflexivity.
Qed.

(** *** With a declared length *)

Section Declared.

Local Open Scope Z_scope.

Variable total : N.
Hypothesis declared : content_length headers = Some total.
Hypothesis positive : (0 < total)%N.

Lemma s1_started : downloaded s1 = 0 \/ synced total s1.
Proof. now left. Qed.

(** A chunk delivered while [prog.shouldStop] is unset is processed,
    as all the chunks before it were. *)
Lemma processed pre chunk :
  shouldStop (prog (dm (inr headers) pre)) = false ->
  knowsPercent (prog (dm (inr headers) (pre ++ [Data chunk]))) = true
  /\ downloaded (dm (inr headers) (pre ++ [Data chunk])) = bytes (pre ++ [Data chunk])
  /\ synced total (dm (inr headers) (pre ++ [Data chunk])).
Proof.
  intros Hs. rewrite (downloadMedia_app pre [Data chunk]), run_one.
  destruct (step_processed cl0 declared (dm (inr headers) pre) chunk Hs)
    as (Hk & Hd & Hsync).
  repeat split; try assumption.
  rewrite Hd, downloadMedia_run.
  rewrite (run_downloaded cl0 declared s1 pre)
    by (rewrite <- downloadMedia_run; exact Hs).
  clear. induction pre as [|ev pre IH]; simpl; [lia|].
  destruct ev; simpl in *; lia.
Qed.

Lemma bytes_nonneg events : 0 <= bytes events.
Proof.
  induction events as [|ev events IH]; simpl; [lia|]. destruct ev; lia.
Qed.

(** C2, as the code has it. With a declared length greater than 0:
    after each processed chunk [prog.knowsPercent] is true and
    [prog.percent] is the number of hundredths nearest to the bytes
    delivered so far divided by the declared length; from the first
    processed chunk on, [prog.percent] never decreases; and a call
    resolved when the bytes delivered add up to the declared length
    leaves [prog.percent] at 1.00. *)
Theorem C2_percent_follows_the_bytes :
  (forall pre chunk,
      shouldStop (prog (dm (inr headers) pre)) = false ->
      knowsPercent (prog (dm (inr headers) (pre ++ [Data chunk]))) = true
      /\ percent (prog (dm (inr headers) (pre ++ [Data chunk])))
         = Hundredths (toFixed2 (bytes (pre ++ [Data chunk])) (Z.of_N total))
      /\ Z.abs (2 * (100 * bytes (pre ++ [Data chunk])
                     - toFixed2 (bytes (pre ++ [Data chunk])) (Z.of_N total)
                       * Z.of_N total))
         <= Z.of_N total)
  /\ (forall pre chunk post,
         shouldStop (prog (dm (inr headers) pre)) = false ->
         number_leb (percent (prog (dm (inr headers) (pre ++ [Data chunk]))))
                    (percent (prog (dm (inr headers) (pre ++ Data chunk :: post))))
         = true)
  /\ (forall pre ext,
         promise (dm (inr headers) pre) = None ->
         promise (dm (inr headers) (pre ++ [WriterClosed])) = Some (Resolved ext) ->
         bytes pre = Z.of_N total ->
         percent (prog (dm (inr headers) (pre ++ [WriterClosed]))) = Hundredths 100).
Proof.
  split; [|split].
  - intros pre chunk Hs. destruct (processed pre chunk Hs) as (Hk & Hd & Hsync).
    split; [exact Hk|]. unfold synced in Hsync. rewrite Hd in Hsync.
    rewrite fraction_positive in Hsync by lia. split; [exact Hsync|].
    pose proof (nearestHundredth_near midpointRoundsUp
                  (bytes (pre ++ [Data chunk])) (b := Z.of_N total) ltac:(lia)).
    unfold toFixed2. lia.
  - intros pre chunk post Hs. destruct (processed pre chunk Hs) as (_ & _ & Hsync).
    change (pre ++ Data chunk :: post)%list with (pre ++ [Data chunk] ++ post)%list.
    rewrite app_assoc, (downloadMedia_app (pre ++ [Data chunk]) post).
    apply run_percent_mono with (total := total);
      [exact declared|exact positive|exact Hsync].
  - intros pre ext Hp Hres Hbytes.
    rewrite (downloadMedia_app pre [WriterClosed]), run_one in *.
    destruct (step_resolves cl0 _ WriterClosed Hp Hres) as (_ & Hs & _).
    assert (Hd : downloaded (dm (inr headers) pre) = Z.of_N total).
    { rewrite downloadMedia_run in *.
      rewrite (run_downloaded cl0 declared s1 pre Hs). simpl. lia. }
    assert (Hsync : synced total (dm (inr headers) pre)).
    { rewrite downloadMedia_run.
      destruct (run_started cl0 declared pre s1_started) as [H0|H];
        [|exact H].
      rewrite downloadMedia_run in Hd. lia. }
    unfold synced in Hsync. rewrite Hd in Hsync.
    rewrite fraction_positive in Hsync by lia. unfold toFixed2 in Hsync.
    rewrite nearestHundredth_whole in Hsync by lia.
    rewrite <- Hsync. now rewrite step_closed_prog.
Qed.

(** C8, as the code has it. With a declared length greater than 0,
    after each progress update [prog.percent] is the number of
    hundredths nearest to accumulated / total. It is not negative; it
    is at most 1.00 when the bytes delivered do not exceed the
    declared length, and at least 1.00 when they reach it: nothing
    clamps it. *)
Theorem C8_percent_is_rounded_not_clamped pre chunk :
  shouldStop (prog (dm (inr headers) pre)) = false ->
  exists n,
    percent (prog (dm (inr headers) (pre ++ [Data chunk]))) = Hundredths n
    /\ Z.abs (2 * (100 * bytes (pre ++ [Data chunk]) - n * Z.of_N total))
       <= Z.of_N total
    /\ 0 <= n
    /\ (bytes (pre ++ [Data chunk]) <= Z.of_N total -> n <= 100)
    /\ (Z.of_N total <= bytes (pre ++ [Data chunk]) -> 100 <= n).
Proof.
  intros Hs. destruct (processed pre chunk Hs) as (_ & Hd & Hsync).
  unfold synced in Hsync. rewrite Hd in Hsync.
  rewrite fraction_positive in Hsync by lia.
  exists (toFixed2 (bytes (pre ++ [Data chunk])) (Z.of_N total)).
  split; [exact Hsync|]. unfold toFixed2.
  pose proof (bytes_nonneg (pre ++ [Data chunk])) as Hb.
  pose proof (nearestHundredth_near midpointRoundsUp
                (bytes (pre ++ [Data chunk])) (b := Z.of_N total) ltac:(lia)).
  repeat split.
  - lia.
  - rewrite <- (nearestHundredth_zero midpointRoundsUp (b := Z.of_N total)) by lia.
    apply nearestHundredth_mono; lia.
  - intros Hle.
    rewrite <- (nearestHundredth_whole midpointRoundsUp (b := Z.of_N total)) by lia.
    apply nearestHundredth_mono; lia.
  - intros Hle.
    rewrite <- (nearestHundredth_whole midpointRoundsUp (b := Z.of_N total)) at 1 by lia.
    apply nearestHundredth_mono; lia.
Qed.

End Declared.

End Streaming.

(** *** Outcomes *)

(** What has been settled stays settled: later events do not change the
    outcome. *)
Lemma settled_once response pre post v :
  promise (downloadMedia mime_extension response mkParents disk0 url filePath prog0 pre)
  = Some v ->
  promise (downloadMedia mime_extension response mkParents disk0 url filePath prog0
                         (pre ++ post))
  = Some v.
Proof.
  unfold downloadMedia. destruct response as [e|headers]; [trivial|].
  destruct (classify (content_type headers)) as [x|]; [|trivial].
  destruct (x =? ""); [trivial|].
  destruct (mkParents filePath); [trivial|].
  rewrite run_app. apply run_settled.
Qed.

(** The failures the call hears of are its outcome, unchanged: a
    rejection of the request, a rejection of [mkParents], and an error of
    the writer that finds the promise pending. *)
Lemma failures_surfaced :
  (forall e events,
      promise (downloadMedia mime_extension (inl e) mkParents disk0 url filePath prog0 events)
      = Some (Rejected (Raised e)))
  /\ (forall headers x e events,
         classify (content_type headers) = Some x -> (x =? "") = false ->
         mkParents filePath = Some e ->
         promise (downloadMedia mime_extension (inr headers) mkParents disk0 url filePath
                                prog0 events)
         = Some (Rejected (Raised e)))
  /\ (forall response pre e post,
         promise (downloadMedia mime_extension response mkParents disk0 url filePath prog0 pre)
         = None ->
         promise (downloadMedia mime_extension response mkParents disk0 url filePath prog0
                                (pre ++ WriterError e :: post))
         = Some (Rejected (Raised e))).
Proof.
  split; [|split].
  - reflexivity.
  - intros headers x e events Hx Hne Hmk. now rewrite (mkParents_failure headers events Hx Hne Hmk).
  - intros response pre e post Hp.
    destruct (downloadMedia_started response pre (or_introl Hp))
      as (headers & x & -> & Hx & Hne & Hmk).
    rewrite (downloadMedia_app headers Hx Hne Hmk), run_cons.
    apply run_settled, step_writer_error, Hp.
Qed.

(** C7. A call that resolves gives the extension the classifier found
    for the content type of the response, which has no leading dot when
    the table's extensions have none. It made the parent directories,
    then opened [filePath + "." + ext], and that file holds exactly the
    chunks delivered until the writer closed, whatever the disk held at
    that path before. *)
Theorem C7_resolved_extension_and_file response events ext :
  promise (dm response events) = Some (Resolved ext) ->
  exists headers,
    response = inr headers
    /\ classify (content_type headers) = Some ext
    /\ ((forall ty e, mime_extension ty = Some e -> leadingDot e = false) ->
        leadingDot ext = false)
    /\ mkParents filePath = None
    /\ (exists later,
           calls (dm response events)
           = (later ++ [CreateWriteStream (filePath ++ "." ++ ext); MkParents filePath])%list)
    /\ disk (dm response events) (filePath ++ "." ++ ext) = Some (body events).
Proof.
  intros H.
  destruct (downloadMedia_started response events (or_intror (ex_intro _ ext H)))
    as (headers & x & -> & Hx & Hne & Hmk).
  rewrite (downloadMedia_run headers Hx Hne Hmk) in *.
  pose proof H as Hext. apply run_resolves in Hext as (Hext & _); [|reflexivity].
  simpl in Hext. subst x.
  exists headers. repeat split; try assumption.
  - intros Hdots. destruct (content_type headers) as [ty|]; [|discriminate].
    apply classify_accepted in Hx as (_ & _ & e & He & ->).
    destruct (e =? "jpeg"); [reflexivity|exact (Hdots _ _ He)].
  - apply run_calls.
  - change (Some (body events)) with (Some ([] ++ body events)%list).
    apply (run_body (mkClosure url ext (content_length headers) (filePath ++ "." ++ ext)))
      with (x := ext); [reflexivity|reflexivity|apply store_same|exact H].
Qed.

(** C9, as the code has it. A ['close'] of the writer that finds the
    call pending and [prog.shouldStop] set rejects it with
    [GracefulStopError], whatever was delivered and written before; and a
    call is resolved only by a ['close'] that finds [prog.shouldStop]
    unset. *)
Theorem C9_no_success_while_stopping response :
  (forall pre post,
      promise (downloadMedia mime_extension response mkParents disk0 url filePath prog0 pre)
      = None ->
      shouldStop
        (prog (downloadMedia mime_extension response mkParents disk0 url filePath prog0 pre))
      = true ->
      promise (downloadMedia mime_extension response mkParents disk0 url filePath prog0
                             (pre ++ WriterClosed :: post))
      = Some (Rejected (GracefulStopError "Interrupted http download.")))
  /\ (forall events ext,
         promise (downloadMedia mime_extension response mkParents disk0 url filePath prog0
                                events)
         = Some (Resolved ext) ->
         exists pre post,
           events = (pre ++ WriterClosed :: post)%list
           /\ promise (downloadMedia mime_extension response mkParents disk0 url filePath
                                     prog0 pre)
              = None
           /\ shouldStop
                (prog (downloadMedia mime_extension response mkParents disk0 url filePath
                                     prog0 pre))
              = false).
Proof.
  split.
  - intros pre post Hp Hs.
    destruct (downloadMedia_started response pre (or_introl Hp))
      as (headers & x & -> & Hx & Hne & Hmk).
    rewrite (downloadMedia_app headers Hx Hne Hmk), run_cons.
    now apply run_settled, step_closed_stopped.
  - intros events ext H.
    destruct (downloadMedia_started response events (or_intror (ex_intro _ ext H)))
      as (headers & x & -> & Hx & Hne & Hmk).
    rewrite (downloadMedia_run headers Hx Hne Hmk) in H.
    apply run_resolves in H as (_ & pre & post & -> & Hp & Hs); [|reflexivity].
    exists pre, post. rewrite (downloadMedia_run headers Hx Hne Hmk). repeat split; assumption.
Qed.

End DownloadProperties.

(* ================================================================== *)
(** * Concrete runs *)

Section Runs.

Import Sample.

Local Abbreviation png4 := (mkHeaders (Some "image/png") (Some 4%N)).

(** C6, at the failing input: an error of the response stream reaches no
    listener of [downloadMedia]. The state is what it was, so a pending
    call stays pending and the error is not its outcome. *)
Theorem C6_response_error_is_not_surfaced :
  (forall (E : Type) (mime_extension : string -> option string)
          (mkParents : string -> option E) (disk0 : Disk) (url filePath : string)
          (prog0 : DownloadProgress) (response : E + Headers)
          (pre : list (Event E)) (e : E),
      downloadMedia mime_extension response mkParents disk0 url filePath prog0
                    (pre ++ [ResponseError e])
      = downloadMedia mime_extension response mkParents disk0 url filePath prog0 pre)
  /\ promise (download (media (Some 4%N)) [Data ab; ResponseError "ECONNRESET"]) = None.
Proof.
  split; [|reflexivity].
  intros E mime_extension mkParents disk0 url filePath prog0 response pre e.
  unfold downloadMedia. destruct response as [e0|headers]; [reflexivity|].
  destruct (getMediaMimeExtension mime_extension (content_type headers)) as [x|];
    [|reflexivity].
  destruct (x =? ""); [reflexivity|].
  destruct (mkParents filePath); [reflexivity|].
  now rewrite run_app.
Qed.

(** C1, at the failing input: a chunk, the request to stop, a second
    chunk, and the writer closes. The second chunk is neither counted nor
    written, [writer.close()] and [cancel()] are called, and the outcome
    is the error of the write after the end. *)
Lemma C1_stop_at_a_chunk_rejects_with_the_write_error_witness :
  heard "ERR_STREAM_WRITE_AFTER_END" false [Data ab; StopRequested; Data cd; WriterClosed]
  = [Data ab; StopRequested; Data cd; WriterError "ERR_STREAM_WRITE_AFTER_END";
     WriterClosed]
  /\ calls (download (media (Some 4%N))
                     (heard "ERR_STREAM_WRITE_AFTER_END" false
                            [Data ab; StopRequested; Data cd]))
     = [Cancel; WriterClose; ConsoleDebug "cancel direct dl" "http://host/pic";
        CreateWriteStream "out/pic.png"; MkParents "out/pic"]
  /\ prog (download (media (Some 4%N))
                    (heard "ERR_STREAM_WRITE_AFTER_END" false
                           [Data ab; StopRequested; Data cd]))
     = mkProgress true true (Hundredths 50)
  /\ disk (download (media (Some 4%N))
                    (heard "ERR_STREAM_WRITE_AFTER_END" false
                           [Data ab; StopRequested; Data cd; WriterClosed]))
          "out/pic.png"
     = Some ab
  /\ promise (download (media (Some 4%N))
                       (heard "ERR_STREAM_WRITE_AFTER_END" false
                              [Data ab; StopRequested; Data cd; WriterClosed]))
     = Some (Rejected (Raised "ERR_STREAM_WRITE_AFTER_END")).
Proof.
  destruct (C1_stop_at_a_chunk_rejects_with_the_write_error
              mime_extension prepared stale "http://host/pic" "out/pic" fresh png4
              (x := "png") eq_refl eq_refl eq_refl "ERR_STREAM_WRITE_AFTER_END"
              [Data ab; StopRequested] cd [WriterClosed] eq_refl eq_refl)
    as (Hprog & _ & Hcalls & _ & Hdisk & Hpromise).
  split; [reflexivity|]. split; [exact Hcalls|]. split; [exact Hprog|].
  split; [|exact Hpromise].
  exact (f_equal (fun d : Disk => d "out/pic.png") Hdisk).
Defined.

(** C2 as stated fails: the response declares 4 bytes and delivers 8, the
    call resolves, and [prog.percent] ends at 2.00; with a declared length
    of 0 it ends at [Infinity]. *)
Lemma C2_more_bytes_than_declared :
  (promise (download (media (Some 4%N)) [Data abcdefgh; WriterClosed])
   = Some (Resolved "png")
   /\ percent (prog (download (media (Some 4%N)) [Data abcdefgh; WriterClosed]))
      = Hundredths 200)
  /\ (promise (download (media (Some 0%N)) [Data ab; WriterClosed]) = Some (Resolved "png")
      /\ percent (prog (download (media (Some 0%N)) [Data ab; WriterClosed])) = Infinity).
Proof. repeat split; reflexivity. Qed.

Lemma C2_percent_follows_the_bytes_witness :
  (knowsPercent (prog (download (media (Some 4%N)) [Data ab])) = true
   /\ percent (prog (download (media (Some 4%N)) [Data ab])) = Hundredths 50)
  /\ number_leb (percent (prog (download (media (Some 4%N)) [Data ab])))
                (percent (prog (download (media (Some 4%N)) [Data ab; Data cd])))
     = true
  /\ percent (prog (download (media (Some 4%N)) [Data ab; Data cd; WriterClosed]))
     = Hundredths 100.
Proof.
  destruct (C2_percent_follows_the_bytes
              mime_extension prepared stale "http://host/pic" "out/pic" fresh png4
              (x := "png") eq_refl eq_refl eq_refl (total := 4%N) eq_refl eq_refl)
    as (Hchunk & Hmono & Hfinal).
  split; [|split].
  - destruct (Hchunk [] ab eq_refl) as (Hknows & Hpercent & _).
    split; [exact Hknows|exact Hpercent].
  - exact (Hmono [] ab [Data cd] eq_refl).
  - exact (Hfinal [Data ab; Data cd] "png" eq_refl eq_refl eq_refl).
Defined.

Lemma C3_rejected_mimetype_creates_no_file_witness :
  promise (download html [Data ab; WriterClosed])
  = Some (Rejected (Error "Attempted to download non-media mimetype."))
  /\ calls (download html [Data ab; WriterClosed]) = []
  /\ disk (download html [Data ab; WriterClosed]) = stale
  /\ prog (download html [Data ab; WriterClosed]) = fresh.
Proof.
  exact (C3_rejected_mimetype_creates_no_file
           mime_extension prepared stale "http://host/pic" "out/pic" fresh
           (mkHeaders (Some "text/html") (Some 4%N)) [Data ab; WriterClosed] eq_refl).
Defined.

(** C5 as stated fails: the table lists [mpga] first for [audio/mpeg],
    and that is what the classifier gives, not [mp3]. *)
Lemma C5_audio_mpeg_is_mpga :
  getMediaMimeExtension mime_extension (Some "audio/mpeg") = Some "mpga"
  /\ getMediaMimeExtension mime_extension (Some "audio/mpeg") <> Some "mp3".
Proof. split; [reflexivity|discriminate]. Qed.

Lemma C5_jpeg_becomes_jpg_witness :
  getMediaMimeExtension mime_extension (Some "image/jpeg") = Some "jpg"
  /\ getMediaMimeExtension mime_extension (Some "audio/mpeg") = Some "mpga"
  /\ mime_extension "video/mp4" = Some "mp4".
Proof.
  destruct (C5_jpeg_becomes_jpg mime_extension) as (Hjpg & Hmpeg & _ & Hdefault).
  split; [exact (Hjpg eq_refl)|].
  split; [apply (Hmpeg "mpga" eq_refl); discriminate|].
  apply (Hdefault "video/mp4" "mp4" eq_refl). discriminate.
Defined.

Lemma C7_resolved_extension_and_file_witness :
  disk (download (media (Some 4%N)) [Data ab; Data cd; WriterClosed]) "out/pic.png"
  = Some (ab ++ cd)%list
  /\ exists later,
      calls (download (media (Some 4%N)) [Data ab; Data cd; WriterClosed])
      = (later ++ [CreateWriteStream "out/pic.png"; MkParents "out/pic"])%list.
Proof.
  destruct (C7_resolved_extension_and_file
              mime_extension prepared stale "http://host/pic" "out/pic" fresh
              (media (Some 4%N)) [Data ab; Data cd; WriterClosed] (ext := "png") eq_refl)
    as (headers & _ & _ & _ & _ & Hcalls & Hdisk).
  split; [exact Hdisk|exact Hcalls].
Defined.

(** C8 as stated fails: 8 bytes delivered of 4 declared leave
    [prog.percent] at 2.00, above 1; with a declared length of 0 the update
    leaves it at [Infinity]. *)
Lemma C8_percent_above_one :
  (percent (prog (download (media (Some 4%N)) [Data abcdefgh])) = Hundredths 200
   /\ number_leb (percent (prog (download (media (Some 4%N)) [Data abcdefgh])))
                 (Hundredths 100)
      = false)
  /\ percent (prog (download (media (Some 0%N)) [Data ab])) = Infinity.
Proof. repeat split; reflexivity. Qed.

Lemma C8_percent_is_rounded_not_clamped_witness :
  exists n,
    percent (prog (download (media (Some 4%N)) [Data ab])) = Hundredths n
    /\ (0 <= n)%Z /\ (n <= 100)%Z.
Proof.
  destruct (C8_percent_is_rounded_not_clamped
              mime_extension prepared stale "http://host/pic" "out/pic" fresh png4
              (x := "png") eq_refl eq_refl eq_refl (total := 4%N) eq_refl eq_refl
              [] ab eq_refl)
    as (n & Hpercent & _ & Hlow & Hhigh & _).
  exists n. split; [exact Hpercent|]. split; [exact Hlow|].
  apply Hhigh. intros H. discriminate H.
Defined.

(** C9 as stated fails: the body is on the disk, a stop is requested, and
    the writer emits an error before it closes. [prog.shouldStop] is set
    at the ['close'], and the outcome is the error of the writer, not
    [GracefulStopError]. *)
Lemma C9_writer_error_before_close :
  shouldStop (prog (download (media (Some 4%N))
                             [Data ab; Data cd; StopRequested; WriterError "EIO"]))
  = true
  /\ promise (download (media (Some 4%N))
                       [Data ab; Data cd; StopRequested; WriterError "EIO"; WriterClosed])
     = Some (Rejected (Raised "EIO")).
Proof. split; reflexivity. Qed.

Lemma C9_no_success_while_stopping_witness :
  disk (download (media (Some 4%N)) [Data ab; Data cd; StopRequested; WriterClosed])
       "out/pic.png"
  = Some (ab ++ cd)%list
  /\ promise (download (media (Some 4%N)) [Data ab; Data cd; StopRequested; WriterClosed])
     = Some (Rejected (GracefulStopError "Interrupted http download.")).
Proof.
  split; [reflexivity|].
  exact (proj1 (C9_no_success_while_stopping
                  mime_extension prepared stale "http://host/pic" "out/pic" fresh
                  (media (Some 4%N)))
               [Data ab; Data cd; StopRequested] [] eq_refl eq_refl).
Defined.

Lemma C10_parameters_are_ignored_witness :
  getMediaMimeExtension mime_extension (Some "image/png; charset=utf-8") = Some "png".
Proof.
  exact (proj2 (C10_parameters_are_ignored
                  mime_extension "image/png" " charset=utf-8" (ext := "png")
                  eq_refl eq_refl)).
Defined.

Lemma settled_once_witness :
  promise (download (media (Some 4%N)) [Data ab; WriterError "EIO"; WriterClosed])
  = Some (Rejected (Raised "EIO")).
Proof.
  exact (settled_once mime_extension prepared stale "http://host/pic" "out/pic" fresh
                      (media (Some 4%N)) [Data ab; WriterError "EIO"] [WriterClosed]
                      eq_refl).
Defined.

Lemma parameters_ignored_with_MimeTypes_witness :
  getMediaMimeExtension mime_extension (Some "IMAGE/JPEG;q=0.8") = Some "jpg".
Proof.
  exact (parameters_ignored_with_MimeTypes MimeTypes.table "IMAGE/JPEG" "q=0.8"
                                           (ext := "jpg") eq_refl).
Defined.

Lemma undeclared_length_witness :
  knowsPercent (prog (download (media None) [Data ab])) = false
  /\ percent (prog (download (media None) [Data ab])) = Hundredths 0.
Proof.
  exact (undeclared_length
           mime_extension prepared stale "http://host/pic" "out/pic" fresh
           (mkHeaders (Some "image/png") None) (x := "png") eq_refl eq_refl eq_refl
           [] ab eq_refl eq_refl).
Defined.

Lemma fraction_binary64_grid_witness :
  fraction 3 40 = toFixed2_binary64 (divide 3 40).
Proof.
  apply fraction_binary64_grid. unfold grid. apply in_flat_map.
  exists 39%nat. split; [apply in_seq; lia|].
  apply in_map_iff. exists 3%nat. split; [reflexivity|apply in_seq; lia].
Defined.

End Runs.

(* ================================================================== *)
(** * Further properties of [downloadMedia] *)

Section OutcomeProperties.

Variable E : Type.
Variable cl : Closure.

Implicit Types (s : State E) (ev : Event E) (events : list (Event E)).

(** The listener of ['data'] settles nothing and leaves the flag alone. *)
Lemma step_data_flag s chunk :
  shouldStop (prog (step cl s (Data chunk))) = shouldStop (prog s)
  /\ promise (step cl s (Data chunk)) = promise s.
Proof.
  unfold step, onData, pipe.
  destruct (shouldStop (prog s)) eqn:Hs; simpl.
  - split; [exact Hs|reflexivity].
  - destruct (totalLength cl); simpl; destruct (writerEnded s); simpl;
      split; try exact Hs; reflexivity.
Qed.

Lemma run_verdict s events :
  promise s = None ->
  promise (run cl s events) = verdict (shouldStop (prog s)) (ext cl) events.
Proof.
  revert s. induction events as [|ev events IH]; intros s Hp; [exact Hp|].
  rewrite run_cons. destruct ev as [|chunk|e|e|].
  - simpl verdict. now rewrite IH.
  - simpl verdict. destruct (step_data_flag s chunk) as (Hflag & Hpromise).
    rewrite IH by congruence. now rewrite Hflag.
  - simpl verdict. now apply IH.
  - simpl verdict. apply run_settled. now apply step_writer_error.
  - simpl verdict. apply run_settled.
    unfold step, onClose, resolve, reject, settle, endWriter. simpl.
    destruct (shouldStop (prog s)); simpl; rewrite Hp; reflexivity.
Qed.

(** Without a request to stop, the flag is what it was. *)
Lemma run_flag s events :
  forallb (fun ev => negb (isStopRequested ev)) events = true ->
  shouldStop (prog (run cl s events)) = shouldStop (prog s).
Proof.
  revert s. induction events as [|ev events IH]; intros s H; [reflexivity|].
  simpl in H. apply andb_prop in H as [Hev H]. rewrite run_cons, IH by exact H.
  destruct ev as [|chunk|e|e|]; try discriminate.
  - apply step_data_flag.
  - reflexivity.
  - unfold step, onError, reject, settle. destruct (promise s); reflexivity.
  - apply (f_equal shouldStop (step_closed_prog cl s)).
Qed.

(** Without a chunk, the progress is what it was. *)
Lemma run_no_data s events :
  forallb (fun ev => negb (isData ev)) events = true ->
  knowsPercent (prog (run cl s events)) = knowsPercent (prog s)
  /\ percent (prog (run cl s events)) = percent (prog s).
Proof.
  revert s. induction events as [|ev events IH]; intros s H; [split; reflexivity|].
  simpl in H. apply andb_prop in H as [Hev H]. rewrite run_cons.
  destruct (IH (step cl s ev) H) as (Hk & Hp). rewrite Hk, Hp.
  destruct ev as [|chunk|e|e|]; try discriminate.
  - split; reflexivity.
  - split; reflexivity.
  - unfold step, onError, reject, settle. destruct (promise s); split; reflexivity.
  - rewrite (step_closed_prog cl s). split; reflexivity.
Qed.

(** A path that is not the destination keeps its file. *)
Lemma step_other_path s ev (p : string) :
  (p =? dest cl) = false -> disk (step cl s ev) p = disk s p.
Proof.
  intros Hp. destruct ev as [|chunk|e|e|].
  - reflexivity.
  - unfold step, onData, pipe.
    destruct (shouldStop (prog s)); simpl; [reflexivity|].
    destruct (totalLength cl); simpl; destruct (writerEnded s); simpl;
      try reflexivity; unfold store; now rewrite Hp.
  - reflexivity.
  - unfold step, onError, reject, settle. destruct (promise s); reflexivity.
  - now rewrite (proj2 (step_closed_ended cl s)).
Qed.

Lemma run_other_path s events (p : string) :
  (p =? dest cl) = false -> disk (run cl s events) p = disk s p.
Proof.
  intros Hp. revert s. induction events as [|ev events IH]; intros s; [reflexivity|].
  rewrite run_cons, IH. now apply step_other_path.
Qed.

Lemma written_stopped events : written (E := E) true events = [].
Proof.
  induction events as [|ev events IH]; [reflexivity|]. destruct ev; simpl; auto.
Qed.

(** Until the writer's first event, the file grows by the chunks delivered
    before a stop was requested. *)
Lemma run_written s events (w : list Byte.byte) :
  writerSilent events = true -> writerEnded s = false -> disk s (dest cl) = Some w ->
  disk (run cl s events) (dest cl) = Some (w ++ written (shouldStop (prog s)) events)%list.
Proof.
  revert s w. induction events as [|ev events IH]; intros s w Hsilent He Hd;
    [simpl; now rewrite app_nil_r|].
  simpl in Hsilent. apply andb_prop in Hsilent as [Hev Hsilent]. rewrite run_cons.
  destruct ev as [|chunk|e|e|]; try discriminate.
  - simpl written. rewrite (IH (step cl s StopRequested) w Hsilent He Hd). simpl.
    now rewrite written_stopped.
  - destruct (shouldStop (prog s)) eqn:Hs.
    + simpl written. rewrite app_nil_r.
      rewrite run_ended_disk by (rewrite (step_data_stopped cl s chunk Hs); reflexivity).
      rewrite (step_data_stopped cl s chunk Hs). exact Hd.
    + simpl written. rewrite app_assoc.
      destruct (step_data_flag s chunk) as (Hflag & _). rewrite Hs in Hflag.
      rewrite <- Hflag.
      apply IH; [exact Hsilent| |].
      * unfold step, onData, pipe. rewrite Hs.
        destruct (totalLength cl); simpl; rewrite He; reflexivity.
      * unfold step, onData, pipe. rewrite Hs.
        destruct (totalLength cl); simpl; rewrite He; simpl;
          unfold contents; rewrite Hd; apply store_same.
  - simpl written. now apply IH.
Qed.

(** With a declared length, [downloaded] counts the bytes delivered before
    a stop was requested. *)
Lemma run_downloaded_written (total : N) s events :
  totalLength cl = Some total ->
  downloaded (run cl s events)
  = (downloaded s + Z.of_nat (List.length (written (shouldStop (prog s)) events)))%Z.
Proof.
  intros Ht. revert s. induction events as [|ev events IH]; intros s; [simpl; lia|].
  rewrite run_cons, IH. destruct ev as [|chunk|e|e|].
  - simpl. rewrite written_stopped. simpl. lia.
  - destruct (step_data_flag s chunk) as (Hflag & _). rewrite Hflag. simpl written.
    unfold step, onData, pipe. destruct (shouldStop (prog s)) eqn:Hs; simpl.
    + rewrite written_stopped. simpl. lia.
    + rewrite Ht. simpl. destruct (writerEnded s); simpl; rewrite length_app; lia.
  - reflexivity.
  - simpl written. unfold step, onError, reject, settle.
    destruct (promise s); reflexivity.
  - rewrite (step_closed_prog cl s). simpl written.
    unfold step, onClose, resolve, reject, settle, endWriter. simpl.
    destruct (shouldStop (prog s)), (promise s); reflexivity.
Qed.

(** [writer.close()] and [cancel()] are called once for each chunk
    delivered after a stop was requested; no writer is opened. *)
Lemma run_counts s events :
  countCalls isCancel (calls (run cl s events))
  = countCalls isCancel (calls s) + stoppedChunks (shouldStop (prog s)) events
  /\ countCalls isWriterClose (calls (run cl s events))
     = countCalls isWriterClose (calls s) + stoppedChunks (shouldStop (prog s)) events
  /\ countCalls isCreateWriteStream (calls (run cl s events))
     = countCalls isCreateWriteStream (calls s).
Proof.
  revert s. induction events as [|ev events IH]; intros s;
    [repeat split; simpl; lia|].
  rewrite run_cons. destruct (IH (step cl s ev)) as (Hc & Hw & Ho).
  rewrite Hc, Hw, Ho. clear IH Hc Hw Ho.
  destruct ev as [|chunk|e|e|].
  - repeat split; reflexivity.
  - destruct (step_data_flag s chunk) as (Hflag & _). rewrite Hflag. simpl stoppedChunks.
    destruct (shouldStop (prog s)) eqn:Hs.
    + rewrite (step_data_stopped cl s chunk Hs). unfold countCalls. simpl.
      repeat split; lia.
    + unfold step, onData, pipe. rewrite Hs.
      destruct (totalLength cl); simpl; destruct (writerEnded s); simpl;
        repeat split; lia.
  - repeat split; reflexivity.
  - simpl stoppedChunks. unfold step, onError, reject, settle.
    destruct (promise s); repeat split; reflexivity.
  - rewrite (step_closed_prog cl s). simpl stoppedChunks.
    unfold step, onClose, resolve, reject, settle, endWriter. simpl.
    destruct (shouldStop (prog s)), (promise s); repeat split; reflexivity.
Qed.

End OutcomeProperties.

Section MoreDownloadProperties.

Variable E : Type.
Variable mime_extension : string -> option string.
Variable mkParents : string -> option E.
Variable disk0 : Disk.
Variables url filePath : string.
Variable prog0 : DownloadProgress.

Implicit Types (events : list (Event E)).

(** The outcome of a call, from what the collaborators answer and the
    events: a rejected request, a rejected content type or a failed
    [mkParents] settle it at once; otherwise the first event of the writer
    does, an error with its cause, a close with the extension or, when a
    stop was requested before it, with [GracefulStopError]; until then
    the call is pending. *)
Theorem downloadMedia_outcome (response : E + Headers) events :
  promise (downloadMedia mime_extension response mkParents disk0 url filePath prog0 events)
  = match response with
    | inl e => Some (Rejected (Raised e))
    | inr headers =>
        match getMediaMimeExtension mime_extension (content_type headers) with
        | Some x =>
            if x =? "" then
              Some (Rejected (Error "Attempted to download non-media mimetype."))
            else
              match mkParents filePath with
              | Some e => Some (Rejected (Raised e))
              | None => verdict (shouldStop prog0) x events
              end
        | None => Some (Rejected (Error "Attempted to download non-media mimetype."))
        end
    end.
Proof.
  unfold downloadMedia. destruct response as [e|headers]; [reflexivity|].
  destruct (getMediaMimeExtension mime_extension (content_type headers)) as [x|];
    [|reflexivity].
  destruct (x =? ""); [reflexivity|].
  destruct (mkParents filePath); [reflexivity|].
  now rewrite run_verdict.
Qed.

(** [downloadMedia] reads [prog.shouldStop] and never writes it, and it
    writes [prog.knowsPercent] and [prog.percent] in the listener of
    ['data'] only: without a request to stop among the events the flag is
    what it was at the call, and without a chunk the progress is. *)
Theorem prog_is_written_by_chunks_only (response : E + Headers) events :
  (forallb (fun ev => negb (isStopRequested ev)) events = true ->
   shouldStop
     (prog (downloadMedia mime_extension response mkParents disk0 url filePath prog0 events))
   = shouldStop prog0)
  /\ (forallb (fun ev => negb (isData ev)) events = true ->
      knowsPercent
        (prog (downloadMedia mime_extension response mkParents disk0 url filePath prog0
                             events))
      = knowsPercent prog0
      /\ percent
           (prog (downloadMedia mime_extension response mkParents disk0 url filePath prog0
                                events))
         = percent prog0).
Proof.
  unfold downloadMedia. destruct response as [e|headers]; [split; intros _; repeat split|].
  destruct (getMediaMimeExtension mime_extension (content_type headers)) as [x|];
    [|split; intros _; repeat split].
  destruct (x =? ""); [split; intros _; repeat split|].
  destruct (mkParents filePath); [split; intros _; repeat split|].
  split; intros H.
  - now rewrite run_flag.
  - destruct (run_no_data (mkClosure url x (content_length headers) (filePath ++ "." ++ x))
                          (createWriteStream (filePath ++ "." ++ x)
                             (call (MkParents filePath) (enter prog0 disk0)))
                          events H) as (Hk & Hp).
    split; [exact Hk|exact Hp].
Qed.

(** A call changes the disk at one path at most, [filePath + "." + ext]
    for the extension the classifier found: every other path holds what it
    held. *)
Theorem one_file_at_most (response : E + Headers) events (p : string) :
  disk (downloadMedia mime_extension response mkParents disk0 url filePath prog0 events) p
  = disk0 p
  \/ exists headers x,
      response = inr headers
      /\ getMediaMimeExtension mime_extension (content_type headers) = Some x
      /\ p = filePath ++ "." ++ x.
Proof.
  unfold downloadMedia. destruct response as [e|headers]; [now left|].
  destruct (getMediaMimeExtension mime_extension (content_type headers)) as [x|] eqn:Hx;
    [|now left].
  destruct (x =? ""); [now left|].
  destruct (mkParents filePath); [now left|].
  destruct (String.eqb_spec p (filePath ++ "." ++ x)) as [->|Hne].
  - right. now exists headers, x.
  - left. apply String.eqb_neq in Hne.
    rewrite run_other_path by exact Hne.
    unfold createWriteStream, call, enter. cbn [disk]. unfold store. now rewrite Hne.
Qed.

Section Started.

Variable headers : Headers.
Variable x : string.
Hypothesis accepted :
  getMediaMimeExtension mime_extension (content_type headers) = Some x.
Hypothesis nonempty : (x =? "") = false.
Hypothesis prepared : mkParents filePath = None.

(** A call that has registered its listeners has made the directories and
    opened one writer. Each chunk delivered after a stop was requested
    calls [writer.close()] and [cancel()] once more: both are called as
    many times as there are such chunks. *)
Theorem close_and_cancel_once_per_late_chunk events :
  countCalls isCancel
    (calls (downloadMedia mime_extension (inr headers) mkParents disk0 url filePath prog0
                          events))
  = stoppedChunks (shouldStop prog0) events
  /\ countCalls isWriterClose
       (calls (downloadMedia mime_extension (inr headers) mkParents disk0 url filePath prog0
                             events))
     = stoppedChunks (shouldStop prog0) events
  /\ countCalls isCreateWriteStream
       (calls (downloadMedia mime_extension (inr headers) mkParents disk0 url filePath prog0
                             events))
     = 1.
Proof.
  rewrite (downloadMedia_run mime_extension mkParents disk0 url filePath prog0
                             headers accepted nonempty prepared).
  exact (run_counts _ _ events).
Qed.

(** Until the writer's first event, the destination holds exactly the
    chunks delivered before a stop was requested; and with a declared
    length [downloaded] is, at any time, the number of those bytes. *)
Theorem file_holds_the_chunks_before_the_stop events :
  (writerSilent events = true ->
   disk (downloadMedia mime_extension (inr headers) mkParents disk0 url filePath prog0
                       events)
        (filePath ++ "." ++ x)
   = Some (written (shouldStop prog0) events))
  /\ (forall total,
         content_length headers = Some total ->
         downloaded (downloadMedia mime_extension (inr headers) mkParents disk0 url filePath
                                   prog0 events)
         = Z.of_nat (List.length (written (shouldStop prog0) events))).
Proof.
  rewrite (downloadMedia_run mime_extension mkParents disk0 url filePath prog0
                             headers accepted nonempty prepared).
  split.
  - intros Hsilent.
    change (Some (written (shouldStop prog0) events))
      with (Some ([] ++ written (shouldStop prog0) events)%list).
    apply (run_written (mkClosure url x (content_length headers) (filePath ++ "." ++ x)));
      [exact Hsilent|reflexivity|apply store_same].
  - intros total Ht.
    now rewrite (run_downloaded_written
                   (mkClosure url x (content_length headers) (filePath ++ "." ++ x))
                   (total := total)).
Qed.

End Started.

End MoreDownloadProperties.

(* ================================================================== *)
(** * [downloadBinary] *)

Section BinaryProperties.

Variable E : Type.
Variable filePath : string.

Implicit Types (b : BinaryState E) (ev : Event E) (events : list (Event E)).

Lemma binaryRun_cons b ev events :
  binaryRun filePath b (ev :: events) = binaryRun filePath (binaryStep filePath b ev) events.
Proof. reflexivity. Qed.

Lemma binaryStep_settled b ev v :
  binaryPromise b = Some v -> binaryPromise (binaryStep filePath b ev) = Some v.
Proof.
  intros H. destruct ev as [|chunk|e|e|]; simpl; unfold complete; simpl.
  - exact H.
  - destruct (binaryEnded b); exact H.
  - exact H.
  - now rewrite H.
  - now rewrite H.
Qed.

Lemma binaryRun_settled b events v :
  binaryPromise b = Some v -> binaryPromise (binaryRun filePath b events) = Some v.
Proof.
  revert b. induction events as [|ev events IH]; intros b H; [exact H|].
  rewrite binaryRun_cons. apply IH. now apply binaryStep_settled.
Qed.

Lemma binaryRun_verdict b events :
  binaryPromise b = None ->
  binaryPromise (binaryRun filePath b events) = binaryVerdict events.
Proof.
  revert b. induction events as [|ev events IH]; intros b Hp; [exact Hp|].
  rewrite binaryRun_cons. destruct ev as [|chunk|e|e|]; simpl binaryVerdict.
  - now apply IH.
  - apply IH. simpl. destruct (binaryEnded b); exact Hp.
  - now apply IH.
  - apply binaryRun_settled. simpl. unfold complete. now rewrite Hp.
  - apply binaryRun_settled. simpl. unfold complete. simpl. now rewrite Hp.
Qed.

(** The listeners make no call, and write at [filePath] only. *)
Lemma binaryRun_calls b events :
  binaryCalls (binaryRun filePath b events) = binaryCalls b.
Proof.
  revert b. induction events as [|ev events IH]; intros b; [reflexivity|].
  rewrite binaryRun_cons, IH.
  destruct ev; simpl; unfold complete; simpl;
    try destruct (binaryEnded b); try destruct (binaryPromise b); reflexivity.
Qed.

Lemma binaryRun_other_path b events (p : string) :
  (p =? filePath) = false ->
  binaryDisk (binaryRun filePath b events) p = binaryDisk b p.
Proof.
  intros Hp. revert b. induction events as [|ev events IH]; intros b; [reflexivity|].
  rewrite binaryRun_cons, IH.
  destruct ev; simpl; unfold complete; simpl;
    try destruct (binaryEnded b); try destruct (binaryPromise b); simpl;
    try reflexivity; unfold store; now rewrite Hp.
Qed.

Lemma binaryRun_ended b events :
  binaryEnded b = true ->
  binaryDisk (binaryRun filePath b events) = binaryDisk b.
Proof.
  revert b. induction events as [|ev events IH]; intros b H; [reflexivity|].
  rewrite binaryRun_cons, IH.
  - destruct ev; simpl; unfold complete; simpl; try rewrite H;
      try destruct (binaryPromise b); reflexivity.
  - destruct ev; simpl; unfold complete; simpl; try rewrite H;
      try destruct (binaryPromise b); simpl; congruence.
Qed.

(** When the promise is fulfilled, the file holds what it held, then the
    chunks delivered until the writer closed. *)
Lemma binaryRun_body b events (w : list Byte.byte) :
  binaryPromise b = None -> binaryEnded b = false -> binaryDisk b filePath = Some w ->
  binaryPromise (binaryRun filePath b events) = Some Fulfilled ->
  binaryDisk (binaryRun filePath b events) filePath = Some (w ++ body events)%list.
Proof.
  revert b w. induction events as [|ev events IH]; intros b w Hp He Hd H;
    [simpl in H; congruence|].
  rewrite binaryRun_cons in *. destruct ev as [|chunk|e|e|].
  - simpl body. now apply IH.
  - simpl body. rewrite app_assoc. apply IH; try assumption.
    + simpl. now rewrite He.
    + simpl. now rewrite He.
    + simpl. rewrite He. simpl. unfold contents. rewrite Hd. apply store_same.
  - simpl body. now apply IH.
  - exfalso.
    assert (Hf : binaryPromise (binaryStep filePath b (WriterError e)) = Some (Failed e))
      by (simpl; unfold complete; now rewrite Hp).
    rewrite (binaryRun_settled _ events Hf) in H. discriminate.
  - simpl body. rewrite app_nil_r, binaryRun_ended.
    + simpl. unfold complete. simpl. rewrite Hp. exact Hd.
    + simpl. unfold complete. simpl. now rewrite Hp.
Qed.

Variable mkParents : string -> option E.
Variable disk0 : Disk.

(** The outcome of a call of [downloadBinary]: a rejected request or a
    failed [mkParents] settle it at once, whatever the response is;
    otherwise the first event of the writer does, an error with its cause
    and a close with [undefined]; until then the call is pending. *)
Theorem downloadBinary_outcome (response : E + Headers) events :
  binaryPromise (downloadBinary response mkParents disk0 filePath events)
  = match response with
    | inl e => Some (Failed e)
    | inr _ =>
        match mkParents filePath with
        | Some e => Some (Failed e)
        | None => binaryVerdict events
        end
    end.
Proof.
  unfold downloadBinary. destruct response as [e|headers]; [reflexivity|].
  destruct (mkParents filePath); [reflexivity|].
  now rewrite binaryRun_verdict.
Qed.

(** A call of [downloadBinary] writes at [filePath] only, as it is given,
    with no extension added; a fulfilled call made the directories, then
    opened the file, called nothing else, and the file holds exactly the
    chunks delivered until the writer closed, whatever it held before. *)
Theorem downloadBinary_file (response : E + Headers) events :
  (forall p, (p =? filePath) = false ->
             binaryDisk (downloadBinary response mkParents disk0 filePath events) p = disk0 p)
  /\ (binaryPromise (downloadBinary response mkParents disk0 filePath events)
      = Some Fulfilled ->
      binaryCalls (downloadBinary response mkParents disk0 filePath events)
      = [CreateWriteStream filePath; MkParents filePath]
      /\ binaryDisk (downloadBinary response mkParents disk0 filePath events) filePath
         = Some (body events)).
Proof.
  unfold downloadBinary. destruct response as [e|headers];
    [split; [reflexivity|discriminate]|].
  destruct (mkParents filePath); [split; [reflexivity|discriminate]|].
  split.
  - intros p Hp. rewrite binaryRun_other_path by exact Hp. simpl. unfold store.
    now rewrite Hp.
  - intros H. split; [apply binaryRun_calls|].
    change (Some (body events)) with (Some ([] ++ body events)%list).
    apply binaryRun_body; [reflexivity|reflexivity|apply store_same|exact H].
Qed.

End BinaryProperties.

(** *** [downloadMedia] without a request to stop, beside [downloadBinary] *)

Section MediaAndBinary.

Variable E : Type.

Implicit Types (events : list (Event E)).

Lemma verdict_unstopped (x : string) events :
  forallb (fun ev => negb (isStopRequested ev)) events = true ->
  verdict false x events = option_map (asSettled x) (binaryVerdict events).
Proof.
  induction events as [|ev events IH]; intros H; [reflexivity|].
  simpl in H. apply andb_prop in H as [Hev H].
  destruct ev; try discriminate; simpl; auto.
Qed.

(** The two writers go the same way while no stop is requested. *)
Lemma run_binaryRun (cl : Closure) (filePath : string) (s : State E) (b : BinaryState E)
      events :
  forallb (fun ev => negb (isStopRequested ev)) events = true ->
  shouldStop (prog s) = false ->
  writerEnded s = binaryEnded b ->
  disk s (dest cl) = binaryDisk b filePath ->
  disk (run cl s events) (dest cl) = binaryDisk (binaryRun filePath b events) filePath.
Proof.
  revert s b. induction events as [|ev events IH]; intros s b H Hs He Hd; [exact Hd|].
  simpl in H. apply andb_prop in H as [Hev H].
  rewrite run_cons, binaryRun_cons.
  destruct ev as [|chunk|e|e|]; try discriminate.
  - destruct (step_data_flag cl s chunk) as (Hflag & _).
    apply IH; [exact H|congruence| |].
    + unfold step, onData, pipe. rewrite Hs. simpl binaryStep. rewrite <- He.
      destruct (totalLength cl); simpl; destruct (writerEnded s); simpl; congruence.
    + unfold step, onData, pipe. rewrite Hs. simpl binaryStep. rewrite <- He.
      destruct (totalLength cl); simpl; destruct (writerEnded s); simpl;
        try exact Hd; unfold contents; rewrite Hd, !store_same; reflexivity.
  - now apply IH.
  - apply IH; [exact H| | |].
    + unfold step, onError, reject, settle. now destruct (promise s).
    + unfold step, onError, reject, settle. simpl. unfold complete.
      destruct (promise s), (binaryPromise b); exact He.
    + unfold step, onError, reject, settle. simpl. unfold complete.
      destruct (promise s), (binaryPromise b); exact Hd.
  - destruct (step_closed_ended cl s) as (Hended & Hdisk).
    apply IH; [exact H| | |].
    + now rewrite (step_closed_prog cl s).
    + rewrite Hended. simpl. unfold complete. simpl.
      now destruct (binaryPromise b).
    + rewrite Hdisk. simpl. unfold complete. simpl.
      destruct (binaryPromise b); exact Hd.
Qed.

Variable mime_extension : string -> option string.
Variable mkParents : string -> option E.
Variable disk0 : Disk.
Variables url filePath : string.
Variable prog0 : DownloadProgress.
Variable headers : Headers.
Variable x : string.
Hypothesis accepted :
  getMediaMimeExtension mime_extension (content_type headers) = Some x.
Hypothesis nonempty : (x =? "") = false.

(** For a response the classifier accepts, and as long as no stop is
    requested, [downloadMedia] does what [downloadBinary] does with the
    same response and events: it is pending, resolved or rejected as
    [downloadBinary] is (with the extension where that one resolves with
    [undefined]), and the file at [filePath + "." + ext] holds what
    [downloadBinary] leaves at [filePath]. *)
Theorem downloadMedia_as_downloadBinary events :
  shouldStop prog0 = false ->
  forallb (fun ev => negb (isStopRequested ev)) events = true ->
  promise (downloadMedia mime_extension (inr headers) mkParents disk0 url filePath prog0
                         events)
  = option_map (asSettled x)
               (binaryPromise (downloadBinary (inr headers) mkParents disk0 filePath events))
  /\ (mkParents filePath = None ->
      disk (downloadMedia mime_extension (inr headers) mkParents disk0 url filePath prog0
                          events)
           (filePath ++ "." ++ x)
      = binaryDisk (downloadBinary (inr headers) mkParents disk0 filePath events) filePath).
Proof.
  intros Hs H. split.
  - unfold downloadMedia, downloadBinary. rewrite accepted, nonempty.
    destruct (mkParents filePath); [reflexivity|].
    rewrite run_verdict, binaryRun_verdict by reflexivity. simpl. rewrite Hs.
    now apply verdict_unstopped.
  - intros Hmk. unfold downloadMedia, downloadBinary. rewrite accepted, nonempty, Hmk.
    apply (run_binaryRun (mkClosure url x (content_length headers) (filePath ++ "." ++ x)));
      [exact H|exact Hs|reflexivity|].
    simpl. now rewrite !store_same.
Qed.

End MediaAndBinary.

(* ================================================================== *)
(** * [getMimeType] *)

Section GetMimeTypeProperties.

Variables E U : Type.
Variable mime_extension : string -> option string.

Lemma verdict_cases (stopped : bool) (x : string) (events : list (Event E)) :
  verdict stopped x events = None
  \/ verdict stopped x events = Some (Resolved x)
  \/ verdict stopped x events
     = Some (Rejected (GracefulStopError "Interrupted http download."))
  \/ exists e, verdict stopped x events = Some (Rejected (Raised e)).
Proof.
  revert stopped. induction events as [|ev events IH]; intros stopped; [now left|].
  destruct ev as [|chunk|e|e|]; simpl; auto.
  - right; right; right. now exists e.
  - destruct stopped; auto.
Qed.

(** What [getMimeType] resolves with tells what [downloadMedia] does with
    a response of the same content type. The extension is [null] or a
    non-empty string other than [jpeg]; when it is [null], [downloadMedia]
    rejects the response as non-media; when it is a string, [downloadMedia]
    does not, and can only resolve with that string. *)
Theorem getMimeType_foretells_downloadMedia (u : U) (headers : Headers) :
  exists info,
    getMimeType (E := E) mime_extension (inr (u, headers)) = inr info
    /\ mimeUrl info = u
    /\ mimeExt info <> Some "" /\ mimeExt info <> Some "jpeg"
    /\ forall (mkParents : string -> option E) (disk0 : Disk) (url filePath : string)
              (prog0 : DownloadProgress) (events : list (Event E)),
        match mimeExt info with
        | None =>
            promise (downloadMedia mime_extension (inr headers) mkParents disk0 url filePath
                                   prog0 events)
            = Some (Rejected (Error "Attempted to download non-media mimetype."))
        | Some ext =>
            promise (downloadMedia mime_extension (inr headers) mkParents disk0 url filePath
                                   prog0 events)
            <> Some (Rejected (Error "Attempted to download non-media mimetype."))
            /\ forall r,
                promise (downloadMedia mime_extension (inr headers) mkParents disk0 url
                                       filePath prog0 events)
                = Some (Resolved r) ->
                r = ext
        end.
Proof.
  eexists. split; [reflexivity|]. cbn [mimeUrl mimeExt]. split; [reflexivity|].
  unfold orNull, truthy, downloadMedia.
  destruct (getMediaMimeExtension mime_extension (content_type headers)) as [x|] eqn:Hx.
  - destruct (x =? "") eqn:Hne; simpl.
    + split; [discriminate|]. split; [discriminate|]. reflexivity.
    + split; [intros [= ->]; discriminate|].
      split; [intros [= ->]; exact (classify_never_jpeg mime_extension _ Hx)|].
      intros mkParents disk0 url filePath prog0 events.
      destruct (mkParents filePath); [split; [discriminate|discriminate]|].
      rewrite run_verdict by reflexivity. simpl.
      destruct (verdict_cases (shouldStop prog0) x events) as [H|[H|[H|(e & H)]]];
        rewrite H; split; try discriminate; now intros r [= <-].
  - simpl. split; [discriminate|]. split; [discriminate|]. reflexivity.
Qed.

End GetMimeTypeProperties.

(* ================================================================== *)
(** * [getJSON] *)

Section GetJSONProperties.

Variable X : Type.

Implicit Types (o ext : Object X) (v : Value X) (key k : string).

Lemma getProperty_setProperty key k v o :
  getProperty key (setProperty k v o) = if k =? key then Some v else getProperty key o.
Proof.
  induction o as [|[k0 w] o IH]; simpl; [reflexivity|].
  destruct (String.eqb_spec k0 k) as [->|Hk0].
  - simpl. destruct (k =? key); reflexivity.
  - simpl. rewrite IH.
    destruct (String.eqb_spec k0 key) as [->|Hkey]; [|reflexivity].
    apply String.eqb_neq in Hk0. rewrite String.eqb_sym in Hk0. now rewrite Hk0.
Qed.

Lemma keys_setProperty key k v o :
  In key (map fst (setProperty k v o)) <-> key = k \/ In key (map fst o).
Proof.
  induction o as [|[k0 w] o IH]; simpl; [intuition|].
  destruct (String.eqb_spec k0 k) as [->|Hk0]; simpl; [intuition|].
  rewrite IH. intuition.
Qed.

Lemma NoDup_setProperty k v o :
  NoDup (map fst o) -> NoDup (map fst (setProperty k v o)).
Proof.
  induction o as [|[k0 w] o IH]; simpl; intros H.
  - constructor; [intros []|constructor].
  - inversion H as [|? ? Hin Hnd]; subst.
    destruct (String.eqb_spec k0 k) as [->|Hk0]; simpl.
    + now constructor.
    + constructor; [|now apply IH].
      rewrite keys_setProperty. intros [->|Hin']; [now destruct Hk0|now destruct Hin].
Qed.

Lemma getProperty_absent key o : ~ In key (map fst o) -> getProperty key o = None.
Proof.
  induction o as [|[k0 w] o IH]; simpl; intros H; [reflexivity|].
  destruct (String.eqb_spec k0 key) as [->|_]; [destruct H; now left|].
  apply IH. intros Hin. apply H. now right.
Qed.

(** A spread property by property: [ext] wins where it has the key. *)
Lemma getProperty_spread key o ext :
  NoDup (map fst ext) ->
  getProperty key (spread o ext)
  = match getProperty key ext with
    | Some v => Some v
    | None => getProperty key o
    end.
Proof.
  unfold spread. revert o. induction ext as [|[k0 w] ext IH]; intros o H; [reflexivity|].
  inversion H as [|? ? Hin Hnd]; subst. simpl fold_left. rewrite IH by exact Hnd.
  simpl getProperty. rewrite getProperty_setProperty.
  destruct (String.eqb_spec k0 key) as [->|_]; [|reflexivity].
  now rewrite (getProperty_absent _ _ Hin).
Qed.

Lemma NoDup_spread o ext : NoDup (map fst o) -> NoDup (map fst (spread o ext)).
Proof.
  unfold spread. revert o. induction ext as [|[k0 w] ext IH]; intros o H; [exact H|].
  simpl. apply IH. now apply NoDup_setProperty.
Qed.

Variable URL : Type.
Variable toString : URL -> string.
Variables E D : Type.
Variable axios : Object X -> E + D.

(** [getJSON] gives what [axios] gives for one configuration, in which
    every property of [ext] stands with its value, [url], [method] and
    [timeout] included, and what [ext] does not have is the default: the
    url (of a [URL], its text), [GET], 10000 and the given [params]. No
    other property is in it, and none twice. *)
Theorem getJSON_configuration (url : string + URL)
        (params : option (list (string * string))) (ext : Object X) :
  NoDup (map fst ext) ->
  exists cfg,
    getJSON toString axios url params (Some ext) = axios cfg
    /\ NoDup (map fst cfg)
    /\ forall key,
        getProperty key cfg
        = match getProperty key ext with
          | Some v => Some v
          | None =>
              getProperty key
                          (defaults X (match url with inl s => s | inr u => toString u end)
                                      (match params with Some p => p | None => [] end))
          end.
Proof.
  intros H. exists (config toString url params (Some ext)).
  split; [reflexivity|]. unfold config. split.
  - apply NoDup_spread. simpl.
    repeat constructor; simpl; intuition discriminate.
  - intros key. now apply getProperty_spread.
Qed.

End GetJSONProperties.

(* ================================================================== *)
(** * The prefix test, case and white space *)

Lemma trimStart_toLowerCase (s : string) :
  trimStart (toLowerCase s) = toLowerCase (trimStart s).
Proof.
  induction s as [|c s IH]; simpl; [reflexivity|].
  rewrite isWhiteSpace_toLowerCaseChar. destruct (isWhiteSpace c); [exact IH|reflexivity].
Qed.

Lemma trimEnd_toLowerCase (s : string) :
  trimEnd (toLowerCase s) = toLowerCase (trimEnd s).
Proof.
  induction s as [|c s IH]; simpl; [reflexivity|].
  rewrite IH, isWhiteSpace_toLowerCaseChar.
  destruct (trimEnd s); simpl; [destruct (isWhiteSpace c)|]; reflexivity.
Qed.

Lemma trim_toLowerCase (s : string) : trim (toLowerCase s) = toLowerCase (trim s).
Proof.
  unfold trim. now rewrite trimStart_toLowerCase, trimEnd_toLowerCase.
Qed.

Lemma blank_trimStart (s : string) : blank s = true -> trimStart s = "".
Proof.
  unfold blank. induction s as [|c s IH]; simpl; [reflexivity|].
  intros H. apply andb_prop in H as [Hc H]. rewrite Hc. now apply IH.
Qed.

Lemma blank_trimEnd (s : string) : blank s = true -> trimEnd s = "".
Proof.
  unfold blank. induction s as [|c s IH]; simpl; [reflexivity|].
  intros H. apply andb_prop in H as [Hc H]. now rewrite (IH H), Hc.
Qed.

Lemma trimEnd_blank (s r : string) : blank r = true -> trimEnd (s ++ r) = trimEnd s.
Proof.
  intros H. induction s as [|c s IH]; simpl; [now apply blank_trimEnd|].
  now rewrite IH.
Qed.

Lemma trim_surrounded (l s r : string) :
  blank l = true -> blank r = true -> trim (l ++ s ++ r) = trim s.
Proof.
  intros Hl Hr. unfold trim.
  rewrite (trimStart_blank l (s ++ r) (blank_trimStart l Hl)).
  destruct (trimStart s) eqn:Hs.
  - rewrite (trimStart_blank s r Hs), (blank_trimStart r Hr). reflexivity.
  - rewrite trimStart_app by (rewrite Hs; discriminate).
    rewrite Hs. now apply trimEnd_blank.
Qed.

Lemma classify_same (mime_extension : string -> option string) (a b : string) :
  allowedPrefix a = allowedPrefix b -> mime_extension a = mime_extension b ->
  getMediaMimeExtension mime_extension (Some a)
  = getMediaMimeExtension mime_extension (Some b).
Proof.
  intros Hp Hm. unfold getMediaMimeExtension. rewrite <- Hp, <- Hm.
  destruct (allowedPrefix a) eqn:Ha; simpl.
  - destruct (String.eqb_spec a "") as [->|_]; [discriminate|].
    destruct (String.eqb_spec b "") as [->|_]; [|reflexivity].
    rewrite Hp in Ha. discriminate.
  - now rewrite !orb_true_r.
Qed.

(** The prefix test of the classifier sees neither the case of the letters
    nor the white space around the type: two types that differ by case
    only, or by white space before and after, pass or fail together. The
    classifier hands the type as it is to the table, so it answers the
    same for both when the table lookup does. *)
Theorem prefix_test_ignores_case_and_white_space
        (mime_extension : string -> option string) (s s' : string) :
  (toLowerCase s = toLowerCase s'
   \/ exists l r, blank l = true /\ blank r = true /\ s' = l ++ s ++ r) ->
  allowedPrefix s' = allowedPrefix s
  /\ (mime_extension s' = mime_extension s ->
      getMediaMimeExtension mime_extension (Some s')
      = getMediaMimeExtension mime_extension (Some s)).
Proof.
  intros H.
  assert (Hp : allowedPrefix s' = allowedPrefix s).
  { unfold allowedPrefix. destruct H as [H|(l & r & Hl & Hr & ->)].
    - now rewrite <- !trim_toLowerCase, H.
    - now rewrite trim_surrounded. }
  split; [exact Hp|]. intros Hm. now apply classify_same.
Qed.

(* ================================================================== *)
(** * Further runs *)

Section MoreRuns.

Import Sample.

(** Without a request to stop the flag stays unset; without a chunk the
    progress stays what it was, whatever else happens. *)
Lemma prog_is_written_by_chunks_only_witness :
  shouldStop (prog (download (media (Some 4%N)) [Data ab; WriterClosed])) = false
  /\ knowsPercent (prog (download (media (Some 4%N)) [StopRequested; WriterClosed])) = false
  /\ percent (prog (download (media (Some 4%N)) [StopRequested; WriterClosed]))
     = Hundredths 0.
Proof.
  split.
  - exact (proj1 (prog_is_written_by_chunks_only
                    mime_extension prepared stale "http://host/pic" "out/pic" fresh
                    (media (Some 4%N)) [Data ab; WriterClosed])
                 eq_refl).
  - exact (proj2 (prog_is_written_by_chunks_only
                    mime_extension prepared stale "http://host/pic" "out/pic" fresh
                    (media (Some 4%N)) [StopRequested; WriterClosed])
                 eq_refl).
Defined.

(** Two chunks arrive after the stop: two calls of [writer.close()], two
    of [cancel()], one writer. *)
Lemma close_and_cancel_once_per_late_chunk_witness :
  countCalls isCancel
    (calls (download (media (Some 4%N)) [Data ab; StopRequested; Data cd; Data ab]))
  = 2%nat
  /\ countCalls isWriterClose
       (calls (download (media (Some 4%N)) [Data ab; StopRequested; Data cd; Data ab]))
     = 2%nat
  /\ countCalls isCreateWriteStream
       (calls (download (media (Some 4%N)) [Data ab; StopRequested; Data cd; Data ab]))
     = 1%nat.
Proof.
  exact (close_and_cancel_once_per_late_chunk
           mime_extension prepared stale "http://host/pic" "out/pic" fresh
           (mkHeaders (Some "image/png") (Some 4%N)) (x := "png") eq_refl eq_refl eq_refl
           [Data ab; StopRequested; Data cd; Data ab]).
Defined.

(** The chunk that arrives after the stop is neither written nor counted. *)
Lemma file_holds_the_chunks_before_the_stop_witness :
  disk (download (media (Some 4%N)) [Data ab; StopRequested; Data cd]) "out/pic.png"
  = Some ab
  /\ downloaded (download (media (Some 4%N)) [Data ab; StopRequested; Data cd]) = 2%Z.
Proof.
  destruct (file_holds_the_chunks_before_the_stop
              mime_extension prepared stale "http://host/pic" "out/pic" fresh
              (mkHeaders (Some "image/png") (Some 4%N)) (x := "png")
              eq_refl eq_refl eq_refl [Data ab; StopRequested; Data cd])
    as [Hdisk Hdownloaded].
  split; [exact (Hdisk eq_refl)|exact (Hdownloaded 4%N eq_refl)].
Defined.

(** [downloadBinary] on a disk where the destination exists: the file is
    replaced by the body, another file is left alone. *)
Lemma downloadBinary_file_witness :
  binaryDisk (downloadBinary (media None) prepared stale "out/pic.png"
                             [Data ab; Data cd; WriterClosed])
             "out/pic.png"
  = Some (ab ++ cd)%list
  /\ binaryDisk (downloadBinary (media None) prepared stale "out/pic"
                                [Data ab; Data cd; WriterClosed])
                "out/pic.png"
     = stale "out/pic.png".
Proof.
  split.
  - exact (proj2 (proj2 (downloadBinary_file
                           "out/pic.png" prepared stale (media None)
                           [Data ab; Data cd; WriterClosed])
                        eq_refl)).
  - exact (proj1 (downloadBinary_file
                    "out/pic" prepared stale (media None)
                    [Data ab; Data cd; WriterClosed])
                 "out/pic.png" eq_refl).
Defined.

Lemma downloadMedia_as_downloadBinary_witness :
  promise (download (media (Some 4%N)) [Data ab; Data cd; WriterClosed])
  = option_map (asSettled "png")
               (binaryPromise (downloadBinary (media (Some 4%N)) prepared stale "out/pic"
                                              [Data ab; Data cd; WriterClosed]))
  /\ disk (download (media (Some 4%N)) [Data ab; Data cd; WriterClosed]) "out/pic.png"
     = binaryDisk (downloadBinary (media (Some 4%N)) prepared stale "out/pic"
                                  [Data ab; Data cd; WriterClosed])
                  "out/pic".
Proof.
  destruct (downloadMedia_as_downloadBinary
              mime_extension prepared stale "http://host/pic" "out/pic" fresh
              (mkHeaders (Some "image/png") (Some 4%N)) (x := "png")
              eq_refl eq_refl [Data ab; Data cd; WriterClosed] eq_refl eq_refl)
    as [Hpromise Hdisk].
  split; [exact Hpromise|exact (Hdisk eq_refl)].
Defined.

(** A caller that passes [{ timeout: 500, responseType: 'text' }]: the
    request goes out with its timeout, and with the method [GET]. The
    [axios] of this run answers with the configuration it is given. *)
Lemma getJSON_configuration_witness :
  exists cfg : Object unit,
    getJSON (fun u : string => u) (fun o => inr o : string + Object unit)
            (inl "http://host/api") None
            (Some [("timeout", VNumber 500); ("responseType", VString "text")])
    = inr cfg
    /\ getProperty "timeout" cfg = Some (VNumber 500)
    /\ getProperty "method" cfg = Some (VString "GET").
Proof.
  destruct (getJSON_configuration
              (fun u : string => u) (fun o => inr o : string + Object unit)
              (inl "http://host/api") None
              [("timeout", VNumber 500); ("responseType", VString "text")])
    as (cfg & Hcfg & _ & Hkey).
  - repeat constructor; simpl; intuition discriminate.
  - exists cfg. split; [exact Hcfg|].
    split; [exact (Hkey "timeout")|exact (Hkey "method")].
Defined.

Lemma prefix_test_ignores_case_and_white_space_witness :
  getMediaMimeExtension mime_extension (Some "IMAGE/PNG")
  = getMediaMimeExtension mime_extension (Some "image/png")
  /\ allowedPrefix "  image/png " = allowedPrefix "image/png".
Proof.
  split.
  - exact (proj2 (prefix_test_ignores_case_and_white_space
                    mime_extension "image/png" (s' := "IMAGE/PNG") (or_introl eq_refl))
                 eq_refl).
  - exact (proj1 (prefix_test_ignores_case_and_white_space
                    mime_extension "image/png"
                    (or_intror (ex_intro _ "  " (ex_intro _ " "
                                  (conj eq_refl (conj eq_refl eq_refl))))))).
Defined.

End MoreRuns.
